(** * Windhager RC7030 client: a shallow embedding of [client.py]

    The development follows [custom_components/windhager/client.py]:

    - [Py] holds the fragment of Python the client relies on: JSON values,
      truthiness, [str()], [int()], [set()], membership and [.get],
      [str.replace], [str.lower], substring tests, and exceptions as a small
      error monad;
    - [Windhager] holds the class [WindhagerHttpClient]: constructor,
      eco-duration property and setter, [slugify], the two device builders
      and [fetch_all], written with explicit state passing for the mutable
      attributes [devices] and [_oids_to_fetch].

    Strings are byte strings (UTF-8); dictionaries are [gmap string _],
    Python sets are [gset _]. What the device answers and what spec.json
    holds under [unknown_values] and [eco_default_duration_minutes] is any
    JSON value; the circuits and modules of spec.json are typed by their
    schema. *)

From Stdlib Require Import ZArith String Ascii DecimalString.
From Stdlib Require DecimalPos.
From stdpp Require Import gmap strings list fin_maps sorting.

#[local] Set Warnings "-clear-no-such-hyp,-register-all".

Local Open Scope Z_scope.
Local Open Scope string_scope.

(* ===================================================================== *)
(** * The Python fragment *)
(* ===================================================================== *)

Module Py.

(** Exceptions raised on the paths of [client.py]; all of them derive from
    [Exception], so a bare [except Exception] catches every one of them. *)
Inductive exn : Type :=
| TypeError
| ValueError
| KeyError
| AttributeError
| OSError
| JSONDecodeError
| UnicodeDecodeError
| ClientError
| TimeoutError.

(** A computation that returns or raises. *)
Inductive result (A : Type) : Type :=
| Ok (a : A)
| Raise (e : exn).
Arguments Ok {A} a.
Arguments Raise {A} e.

#[global] Instance result_ret : MRet result := λ A a, Ok a.
#[global] Instance result_bind : MBind result := λ A B f m,
  match m with
  | Ok a => f a
  | Raise e => Raise e
  end.

(** [try: body; except Exception: handler] *)
Definition try_except {A : Type} (body : result A) (handler : exn → result A)
  : result A :=
  match body with
  | Ok a => Ok a
  | Raise e => handler e
  end.

(** [for x in xs: s = body(s, x)], stopping at the first exception. *)
Fixpoint for_each {A S : Type} (xs : list A) (body : S → A → result S) (s : S)
  : result S :=
  match xs with
  | [] => Ok s
  | x :: xs' => s' ← body s x; for_each xs' body s'
  end.

(** Scalar values as [json.load] produces them ([None], [bool], [int],
    [str]); numbers with a fraction are outside the model. *)
Inductive pyval : Type :=
| PNone
| PBool (b : bool)
| PInt (z : Z)
| PStr (s : string).

#[global] Instance pyval_eq_dec : EqDecision pyval := ltac:(solve_decision).

#[global] Instance pyval_countable : Countable pyval :=
  inj_countable'
    (λ v, match v with
          | PNone => inl ()
          | PBool b => inr (inl b)
          | PInt z => inr (inr (inl z))
          | PStr s => inr (inr (inr s))
          end)
    (λ x, match x with
          | inl _ => PNone
          | inr (inl b) => PBool b
          | inr (inr (inl z)) => PInt z
          | inr (inr (inr s)) => PStr s
          end)
    ltac:(by intros []).

(** Values as [json.load] and [response.json()] produce them: a scalar, a
    list, or a dictionary with string keys. *)
Inductive json : Type :=
| JVal (v : pyval)
| JList (l : list json)
| JDict (d : gmap string json).

(** [bool(v)] *)
Definition truthy (v : pyval) : bool :=
  match v with
  | PNone => false
  | PBool b => b
  | PInt z => negb (z =? 0)%Z
  | PStr s => negb (String.eqb s "")
  end.

(** [str(v)], which is what an f-string field [{v}] expands to. *)
Definition py_str (v : pyval) : string :=
  match v with
  | PNone => "None"
  | PBool true => "True"
  | PBool false => "False"
  | PInt z => NilZero.string_of_int (Z.to_int z)
  | PStr s => s
  end.

(** ** Characters

    A Python string is a sequence of code points; here it is their UTF-8
    encoding, in which every byte of the form 10xxxxxx continues the
    character begun before it. *)

Definition is_continuation (c : ascii) : bool :=
  let n := nat_of_ascii c in (Nat.leb 128 n && Nat.ltb n 192)%bool.

Definition continues (s : string) : bool :=
  match s with
  | String c _ => is_continuation c
  | EmptyString => false
  end.

(** The characters of a string, in order (what iterating over it yields). *)
Fixpoint chars (s : string) : list string :=
  match s with
  | EmptyString => []
  | String c s' =>
      match chars s' with
      | k :: ks =>
          if continues s' then String c k :: ks
          else String c EmptyString :: k :: ks
      | [] => [String c EmptyString]
      end
  end.

(** The code point a character encodes. *)
Definition code_point (k : string) : N :=
  match k with
  | EmptyString => 0
  | String c k' =>
      let n := N_of_ascii c in
      let lead := if (n <? 128)%N then n
                  else if (n <? 224)%N then (n - 192)%N
                  else if (n <? 240)%N then (n - 224)%N
                  else (n - 240)%N in
      foldl (λ acc c', (64 * acc + (N_of_ascii c' - 128))%N) lead
            (list_ascii_of_string k')
  end.

Fixpoint is_ascii (s : string) : bool :=
  match s with
  | EmptyString => true
  | String c s' => (Nat.ltb (nat_of_ascii c) 128 && is_ascii s')%bool
  end.

(** ** [int(str)] for base 10 (CPython, [PyLong_FromUnicodeObject])

    Characters beyond ASCII are first mapped to ASCII: a Unicode space to a
    blank and a Unicode decimal digit to its ASCII digit; any other one
    becomes a question mark, which ends the text. Around the number
    the whitespace of [Py_ISSPACE] is skipped, one sign is allowed, and the
    digits may be grouped by single underscores. A number with more digits
    than the interpreter's limit is refused. *)

(** What [int(str)] takes from the interpreter: the limit on the number of
    digits ([sys.get_int_max_str_digits()]; 0 when there is no limit, as
    before the limit was introduced) and the two tables of its Unicode
    database. *)
Record interpreter : Type := {
  int_max_str_digits : nat;
  Py_UNICODE_ISSPACE : N → bool;
  Py_UNICODE_TODECIMAL : N → option nat;
}.

(** [_PyUnicode_TransformDecimalAndSpaceToASCII] on the characters of a
    string that is not ASCII *)
Fixpoint transform_chars (py : interpreter) (ks : list string) : string :=
  match ks with
  | [] => EmptyString
  | k :: ks' =>
      let ch := code_point k in
      if (ch <? 127)%N then String (ascii_of_N ch) (transform_chars py ks')
      else if Py_UNICODE_ISSPACE py ch then String " " (transform_chars py ks')
      else match Py_UNICODE_TODECIMAL py ch with
           | Some decimal =>
               String (ascii_of_nat (48 + decimal)) (transform_chars py ks')
           | None => "?"
           end
  end.

Definition transform_decimal_and_space_to_ascii (py : interpreter) (s : string)
  : string :=
  if is_ascii s then s else transform_chars py (chars s).

(** [Py_ISSPACE]: blank, tab, line feed, vertical tab, form feed, carriage
    return *)
Definition is_space (c : ascii) : bool :=
  let n := nat_of_ascii c in
  (Nat.eqb n 32 || (Nat.leb 9 n && Nat.leb n 13))%bool.

Fixpoint lstrip (s : string) : string :=
  match s with
  | EmptyString => EmptyString
  | String c s' => if is_space c then lstrip s' else s
  end.

Fixpoint str_rev_app (s acc : string) : string :=
  match s with
  | EmptyString => acc
  | String c s' => str_rev_app s' (String c acc)
  end.

Definition str_rev (s : string) : string := str_rev_app s EmptyString.

(** [s] without the whitespace at its two ends *)
Definition strip (s : string) : string := str_rev (lstrip (str_rev (lstrip s))).

Definition digit_of (c : ascii) : option Z :=
  let n := nat_of_ascii c in
  if (Nat.leb 48 n && Nat.leb n 57)%bool then Some (Z.of_nat (n - 48)) else None.

(** Digits with single underscores between them; [after_digit] tells whether
    the previous character was a digit. The result carries the number of
    digits read. *)
Fixpoint parse_digits (acc : Z) (digits : nat) (after_digit : bool) (s : string)
  : option (Z * nat) :=
  match s with
  | EmptyString => if after_digit then Some (acc, digits) else None
  | String c s' =>
      match digit_of c with
      | Some d => parse_digits (10 * acc + d) (S digits) true s'
      | None =>
          if (Ascii.eqb c "_" && after_digit)%bool
          then parse_digits acc digits false s'
          else None
      end
  end.

(** [_PY_LONG_MAX_STR_DIGITS_THRESHOLD]: shorter numbers are never refused. *)
Definition MAX_STR_DIGITS_THRESHOLD : nat := 640.

Definition exceeds_limit (py : interpreter) (digits : nat) : bool :=
  (Nat.ltb MAX_STR_DIGITS_THRESHOLD digits &&
   Nat.ltb 0 (int_max_str_digits py) &&
   Nat.ltb (int_max_str_digits py) digits)%bool.

(** The magnitude after the sign *)
Definition parse_magnitude (py : interpreter) (s : string) : option Z :=
  match parse_digits 0 0 false s with
  | Some (z, digits) => if exceeds_limit py digits then None else Some z
  | None => None
  end.

Definition int_of_str (py : interpreter) (s : string) : option Z :=
  match strip (transform_decimal_and_space_to_ascii py s) with
  | String "-" r => Z.opp <$> parse_magnitude py r
  | String "+" r => parse_magnitude py r
  | t => parse_magnitude py t
  end.

(** [int(v)] on a scalar *)
Definition py_int (py : interpreter) (v : pyval) : result Z :=
  match v with
  | PNone => Raise TypeError
  | PBool b => Ok (if b then 1 else 0)
  | PInt z => Ok z
  | PStr s =>
      match int_of_str py s with
      | Some z => Ok z
      | None => Raise ValueError
      end
  end.

(** [int(x)] on any JSON value: lists and dictionaries are refused. *)
Definition int_of_json (py : interpreter) (x : json) : result Z :=
  match x with
  | JVal v => py_int py v
  | JList _ | JDict _ => Raise TypeError
  end.

(** ** Operations on JSON values *)

(** [bool(x)] *)
Definition json_truthy (x : json) : bool :=
  match x with
  | JVal v => truthy v
  | JList l => negb (Nat.eqb (length l) 0)
  | JDict d => negb (Nat.eqb (size d) 0)
  end.

(** [x == k] for a string [k] *)
Definition is_str (k : string) (x : json) : bool :=
  match x with
  | JVal (PStr s) => String.eqb s k
  | _ => false
  end.

(** [x is None] *)
Definition is_none (x : json) : bool :=
  match x with
  | JVal PNone => true
  | _ => false
  end.

(** [js.get(k)]: only a dictionary has the method. *)
Definition py_get (js : json) (k : string) : result json :=
  match js with
  | JDict d => Ok (default (JVal PNone) (d !! k))
  | _ => Raise AttributeError
  end.

(** Hashing. Equal values hash alike, and [True == 1] and [False == 0]: a
    set holds one entry for both, kept here under the integer. Lists and
    dictionaries cannot be hashed. *)
Definition py_key (v : pyval) : pyval :=
  match v with
  | PBool b => PInt (if b then 1 else 0)
  | _ => v
  end.

Definition py_hash (x : json) : result pyval :=
  match x with
  | JVal v => Ok (py_key v)
  | JList _ | JDict _ => Raise TypeError
  end.

(** The hashes of a list, left to right, up to the first that fails. *)
Fixpoint py_hashes (l : list json) : result (list pyval) :=
  match l with
  | [] => Ok []
  | x :: l' => k ← py_hash x; ks ← py_hashes l'; Ok (k :: ks)
  end.

(** [set(xs)]: the elements of a list, the characters of a string, the keys
    of a dictionary; other values cannot be iterated. *)
Definition py_set (xs : json) : result (gset pyval) :=
  match xs with
  | JVal (PStr s) => Ok (list_to_set (PStr <$> chars s))
  | JVal _ => Raise TypeError
  | JList l => ks ← py_hashes l; Ok (list_to_set ks)
  | JDict d => Ok (set_map PStr (dom d))
  end.

(** [x in s] for a set [s] *)
Definition py_in_set (x : json) (s : gset pyval) : result bool :=
  k ← py_hash x; Ok (bool_decide (k ∈ s)).

(** ** String methods *)

(** [s.replace(old, new)] for a non-empty [old]: occurrences are replaced
    left to right without overlap; [skip] counts the characters of a matched
    occurrence still to be dropped. *)
Fixpoint replace_from (old new : string) (skip : nat) (s : string) : string :=
  match s with
  | EmptyString => EmptyString
  | String c s' =>
      match skip with
      | S k => replace_from old new k s'
      | O =>
          if String.prefix old s
          then new +:+ replace_from old new (String.length old - 1) s'
          else String c (replace_from old new 0 s')
      end
  end.

Definition str_replace (s old new : string) : string := replace_from old new 0 s.

Definition lower_char (c : ascii) : ascii :=
  let n := nat_of_ascii c in
  if (Nat.leb 65 n && Nat.leb n 90)%bool then ascii_of_nat (n + 32) else c.

(** [s.lower()]; only the letters A-Z change, which is all a test against an
    ASCII needle can observe. *)
Fixpoint str_lower (s : string) : string :=
  match s with
  | EmptyString => EmptyString
  | String c s' => String (lower_char c) (str_lower s')
  end.

(** [needle in s] on strings *)
Fixpoint str_contains (needle s : string) : bool :=
  (String.prefix needle s ||
   match s with
   | EmptyString => false
   | String _ s' => str_contains needle s'
   end)%bool.

(** [k in js] for a string [k]: a key of a dictionary, an element of a
    list, a substring of a string; other values are not containers. *)
Definition py_in (k : string) (js : json) : result bool :=
  match js with
  | JVal (PStr s) => Ok (str_contains k s)
  | JVal _ => Raise TypeError
  | JList l => Ok (existsb (is_str k) l)
  | JDict d => Ok (bool_decide (is_Some (d !! k)))
  end.

(** [sorted(xs)] on strings: code point order, which on UTF-8 is byte order. *)
Definition str_le (a b : string) : Prop := String.leb a b.

#[global] Instance str_le_dec : RelDecision str_le :=
  λ a b, Is_true_dec (String.leb a b).

Definition sorted (xs : gset string) : list string :=
  merge_sort str_le (elements xs).

(** [d.get(k)] on a dictionary of scalars. *)
Definition dict_get (d : gmap string pyval) (k : string) : pyval :=
  default PNone (d !! k).

End Py.
Import Py.

(* ===================================================================== *)
(** * The client *)
(* ===================================================================== *)

Module Windhager.

(** ** spec.json

    A field that the client reads with [.get(key, default)] is optional;
    [None] stands for a missing key. Circuits and modules are typed by the
    schema of the file: OIDs and names are strings. The two settings that
    [__init__] reads hold any JSON value, and the document as a whole may be
    something else than an object. *)

Record heating_circuit : Type := {
  hk_name : string;
  hk_node : pyval;
  hk_fct : pyval;
  hk_oids : gmap string string;
}.

Record module_sensor : Type := {
  s_oid : string;
  s_name : string;
}.

Record module_block : Type := {
  mod_name : string;
  mod_node : pyval;
  mod_fct : pyval;
  mod_sensors : option (list module_sensor);
}.

Record specification : Type := {
  spec_heating_circuits : option (list heating_circuit);
  spec_modules : option (list module_block);
  spec_unknown_values : option json;
  spec_eco_default_duration_minutes : option json;
}.

(** What [json.load] yields for spec.json *)
Inductive document : Type :=
| DocObject (spec : specification)
| DocList (l : list json)
| DocScalar (v : pyval).

(** ** Device descriptors

    A descriptor is the dictionary the builders append to [self.devices]; its
    values are scalars, except [oids_map] which is a dictionary itself. *)

Inductive dval : Type :=
| DVal (v : pyval)
| DMap (m : gmap string pyval).

#[global] Instance dval_eq_dec : EqDecision dval := ltac:(solve_decision).

Abbreviation device := (gmap string dval).

(** ** The object state *)

Record client : Type := {
  host : string;
  password : string;
  _spec : specification;
  _unknown_values : gset pyval;
  _eco_default_duration_minutes : Z;
  _oids_to_fetch : gset string;
  devices : list device;
}.

(** [self._eco_default_duration_minutes = minutes] *)
Definition set_eco (minutes : Z) (self : client) : client :=
  {| host := host self; password := password self; _spec := _spec self;
     _unknown_values := _unknown_values self;
     _eco_default_duration_minutes := minutes;
     _oids_to_fetch := _oids_to_fetch self; devices := devices self |}.

(** [self.devices.append(d)] *)
Definition append_device (d : device) (self : client) : client :=
  {| host := host self; password := password self; _spec := _spec self;
     _unknown_values := _unknown_values self;
     _eco_default_duration_minutes := _eco_default_duration_minutes self;
     _oids_to_fetch := _oids_to_fetch self; devices := devices self ++ [d] |}.

(** [self._oids_to_fetch.add(oid)] *)
Definition add_oid (oid : string) (self : client) : client :=
  {| host := host self; password := password self; _spec := _spec self;
     _unknown_values := _unknown_values self;
     _eco_default_duration_minutes := _eco_default_duration_minutes self;
     _oids_to_fetch := {[ oid ]} ∪ _oids_to_fetch self; devices := devices self |}.

(** [self.devices = []; self._oids_to_fetch = set()] *)
Definition reset_cycle (self : client) : client :=
  {| host := host self; password := password self; _spec := _spec self;
     _unknown_values := _unknown_values self;
     _eco_default_duration_minutes := _eco_default_duration_minutes self;
     _oids_to_fetch := ∅; devices := [] |}.

(** ** Construction *)

(** The fallback of [_load_spec]: [{"heating_circuits": [], "modules": []}] *)
Definition empty_spec : specification :=
  {| spec_heating_circuits := Some []; spec_modules := Some [];
     spec_unknown_values := None; spec_eco_default_duration_minutes := None |}.

(** [_load_spec]; [file] is what opening and parsing spec.json yields. *)
Definition _load_spec (file : result document) : result document :=
  try_except file (λ _, Ok (DocObject empty_spec)).

(** The constructor. [self._spec.get] exists only when the document is an
    object; [set()] and [int()] run on what the document holds. *)
Definition __init__ (py : interpreter) (host password : string)
    (file : result document) : result client :=
  doc ← _load_spec file;
  match doc with
  | DocObject spec =>
      unknown ← py_set (default (JList [JVal (PStr "-.-"); JVal (PStr "")])
                                (spec_unknown_values spec));
      eco ← int_of_json py (default (JVal (PInt 180))
                                    (spec_eco_default_duration_minutes spec));
      Ok {| host := host; password := password; _spec := spec;
            _unknown_values := unknown;
            _eco_default_duration_minutes := eco;
            _oids_to_fetch := ∅; devices := [] |}
  | DocList _ | DocScalar _ => Raise AttributeError
  end.

(** ** The eco/comfort default duration *)

Definition eco_default_duration_minutes (self : client) : Z :=
  _eco_default_duration_minutes self.

Definition set_eco_default_duration_minutes (py : interpreter) (self : client)
    (minutes : json) : result client :=
  try_except
    (minutes ← int_of_json py minutes;
     if (minutes <=? 0)%Z then Raise ValueError
     else Ok (set_eco minutes self))
    (λ _, Ok self).

(** ** Identifiers *)

Definition slugify (identifier_str : string) : string :=
  str_replace (str_replace identifier_str "." "-") "/" "-".

(** ** Device builders *)

(** [oids.get(k)] on the [oids] block of a heating circuit *)
Definition oids_get (oids : gmap string string) (k : string) : pyval :=
  from_option PStr PNone (oids !! k).

(** [f"/1/{node}/{fct}"] *)
Definition prefix_of (node fct : pyval) : string :=
  "/1/" +:+ py_str node +:+ "/" +:+ py_str fct.

Definition control_roles : list string :=
  ["mode"; "comfort_offset"; "eco_temp"; "eco_duration"; "room_temp";
   "room_target_ro"].

Definition temperature_labels : list (string * string) :=
  [("room_temp", " Room Temperature");
   ("room_target_ro", " Target Temperature (read-only)");
   ("flow_temp", " Flow Temperature");
   ("flow_target", " Flow Target");
   ("dhw_temp", " DHW Temperature");
   ("dhw_target_ro", " DHW Target (read-only)");
   ("outside_temp", " Outside Temperature")].

Definition status_labels : list (string * string) :=
  [("pump", " Pump"); ("mixer", " Mixer")].

(** The parent climate descriptor of [_build_hk_climate_device] *)
Definition climate_device (host : string) (hk : heating_circuit) : device :=
  let name := hk_name hk in
  let oids := hk_oids hk in
  let prefix := prefix_of (hk_node hk) (hk_fct hk) in
  let dev_id := slugify (host +:+ prefix) in
  {[ "id" := DVal (PStr dev_id);
     "name" := DVal (PStr name);
     "type" := DVal (PStr "climate");
     "prefix" := DVal (PStr prefix);
     "oids_map" := DMap
       {[ "mode" := oids_get oids "mode";
          "comfort_offset" := oids_get oids "comfort_offset";
          "eco_temp" := oids_get oids "eco_temp";
          "eco_duration" := oids_get oids "eco_duration";
          "room_temp" := oids_get oids "room_temp";
          "room_target_ro" := oids_get oids "room_target_ro" ]};
     "device_id" := DVal (PStr dev_id);
     "device_name" := DVal (PStr name) ]}.

(** A child descriptor typed [typ] (the temperature loop and the module
    sensors build this shape). *)
Definition child_device (host typ dev_id name nice oid : string) : device :=
  {[ "id" := DVal (PStr (slugify (host +:+ oid)));
     "name" := DVal (PStr nice);
     "type" := DVal (PStr typ);
     "oid" := DVal (PStr oid);
     "device_id" := DVal (PStr dev_id);
     "device_name" := DVal (PStr name) ]}.

(** The descriptor of a status sensor (pump, mixer). *)
Definition status_device (host dev_id name nice oid : string) : device :=
  {[ "id" := DVal (PStr (slugify (host +:+ oid)));
     "name" := DVal (PStr nice);
     "type" := DVal (PStr "sensor");
     "device_class" := DVal PNone;
     "state_class" := DVal PNone;
     "unit" := DVal PNone;
     "oid" := DVal (PStr oid);
     "device_id" := DVal (PStr dev_id);
     "device_name" := DVal (PStr name) ]}.

(** Body of [for k in (...): if oids.get(k): self._oids_to_fetch.add(oids[k])] *)
Definition register_role (oids : gmap string string) (self : client) (k : string)
  : client :=
  match oids !! k with
  | Some oid => if truthy (PStr oid) then add_oid oid self else self
  | None => self
  end.

(** Body of the two child loops: [oid = oids.get(key); if oid: append, add]. *)
Definition child_step (mk : string → string → device) (name : string)
    (oids : gmap string string) (self : client) (kl : string * string) : client :=
  let nice := name +:+ kl.2 in
  match oids !! kl.1 with
  | Some oid =>
      if truthy (PStr oid)
      then add_oid oid (append_device (mk nice oid) self)
      else self
  | None => self
  end.

Definition _build_hk_climate_device (self : client) (hk : heating_circuit) : client :=
  let name := hk_name hk in
  let oids := hk_oids hk in
  let prefix := prefix_of (hk_node hk) (hk_fct hk) in
  let dev_id := slugify (host self +:+ prefix) in
  let self := append_device (climate_device (host self) hk) self in
  let self := foldl (register_role oids) self control_roles in
  let self :=
    foldl (child_step (child_device (host self) "temperature" dev_id name) name oids)
          self temperature_labels in
  foldl (child_step (status_device (host self) dev_id name) name oids)
        self status_labels.

(** Body of [for s in module.get("sensors", [])] *)
Definition sensor_step (name dev_id : string) (self : client) (s : module_sensor)
  : client :=
  let oid := s_oid s in
  let sname := s_name s in
  let typ := if str_contains "temperatur" (str_lower sname)
             then "temperature" else "sensor" in
  add_oid oid
    (append_device
       (child_device (host self) typ dev_id name (name +:+ " " +:+ sname) oid) self).

Definition _build_module_sensors (self : client) (module : module_block) : client :=
  let name := mod_name module in
  let prefix := prefix_of (mod_node module) (mod_fct module) in
  let dev_id := slugify (host self +:+ prefix) in
  foldl (sensor_step name dev_id) self (default [] (mod_sensors module)).

(** ** The fetch cycle *)

(** The dictionary [fetch_all] returns. *)
Record snapshot : Type := {
  ret_devices : list device;
  ret_oids : gmap string json;
  ret_units : gmap string json;
  ret_meta : gmap string pyval;
}.

(** [ret["oids"][oid] = v] *)
Definition record_oid (oid : string) (v : json) (ret : snapshot) : snapshot :=
  {| ret_devices := ret_devices ret; ret_oids := <[oid := v]> (ret_oids ret);
     ret_units := ret_units ret; ret_meta := ret_meta ret |}.

(** [ret["units"][oid] = u] *)
Definition record_unit (oid : string) (u : json) (ret : snapshot) : snapshot :=
  {| ret_devices := ret_devices ret; ret_oids := ret_oids ret;
     ret_units := <[oid := u]> (ret_units ret); ret_meta := ret_meta ret |}.

(** [_lookup]. [request method url] stands for [self._auth.request] followed
    by [ret.json()]: it raises, or yields the JSON value of the reply. After
    an exception [_lookup] returns [None]. *)
Definition _lookup (request : string → string → result json)
    (self : client) (oid : string) : result json :=
  let url := "http://" +:+ host self +:+ "/api/1.0/lookup" +:+ oid in
  try_except (js ← request "GET" url; Ok js) (λ _, Ok (JVal PNone)).

(** Body of [for oid in sorted(self._oids_to_fetch)]. The condition
    [not js or "value" not in js] tests membership only when [js] is
    truthy. *)
Definition fetch_step (request : string → string → result json)
    (self : client) (ret : snapshot) (oid : string) : result snapshot :=
  js ← _lookup request self oid;
  skip ← (if negb (json_truthy js) then Ok true
          else has ← py_in "value" js; Ok (negb has));
  if skip : bool
  then Ok (record_oid oid (JVal PNone) ret)
  else
    val ← py_get js "value";
    unit ← py_get js "unit";
    let ret := record_unit oid unit ret in
    unknown ← py_in_set val (_unknown_values self);
    if unknown : bool
    then Ok (record_oid oid (JVal PNone) ret)
    else Ok (record_oid oid val ret).

(** The first half of [fetch_all]: reset, then build from the specification. *)
Definition rebuild (self : client) : client :=
  let self := reset_cycle self in
  let self :=
    foldl _build_hk_climate_device self
          (default [] (spec_heating_circuits (_spec self))) in
  foldl _build_module_sensors self (default [] (spec_modules (_spec self))).

Definition fetch_all (request : string → string → result json)
    (self : client) : result (snapshot * client) :=
  let self := rebuild self in
  let ret :=
    {| ret_devices := devices self; ret_oids := ∅; ret_units := ∅;
       ret_meta :=
         {[ "eco_default_duration_minutes" :=
              PInt (_eco_default_duration_minutes self) ]} |} in
  ret ← for_each (sorted (_oids_to_fetch self)) (fetch_step request self) ret;
  Ok (ret, self).

End Windhager.
Import Windhager.

(* ===================================================================== *)
(** * Vocabulary of the properties *)
(* ===================================================================== *)

(** [s] with every character replaced by its image under [f]. *)
Fixpoint str_map (f : ascii → ascii) (s : string) : string :=
  match s with
  | EmptyString => EmptyString
  | String c s' => String (f c) (str_map f s')
  end.

(** What [slugify] is meant to do to one character. *)
Definition slug_char (c : ascii) : ascii :=
  if (Ascii.eqb c "." || Ascii.eqb c "/")%bool then "-"%char else c.

(** A specification document whose default duration is zero. *)
Definition spec_zero_duration : specification :=
  {| spec_heating_circuits := Some []; spec_modules := Some [];
     spec_unknown_values := None;
     spec_eco_default_duration_minutes := Some (JVal (PInt 0)) |}.

(** ** What a builder call adds

    [extend ds os self] is [self] after appending the descriptors [ds] and
    adding the OIDs [os]. *)
Definition extend (ds : list device) (os : gset string) (self : client) : client :=
  {| host := host self; password := password self; _spec := _spec self;
     _unknown_values := _unknown_values self;
     _eco_default_duration_minutes := _eco_default_duration_minutes self;
     _oids_to_fetch := os ∪ _oids_to_fetch self; devices := devices self ++ ds |}.

(** The OID a circuit declares for role [k], when it is a non-empty string. *)
Definition declared_oid (oids : gmap string string) (k : string) : option string :=
  match oids !! k with
  | Some oid => if truthy (PStr oid) then Some oid else None
  | None => None
  end.

Definition child_of (mk : string → string → device) (name : string)
    (oids : gmap string string) (kl : string * string) : option device :=
  mk (name +:+ kl.2) <$> declared_oid oids kl.1.

Definition hk_dev_id (host : string) (hk : heating_circuit) : string :=
  slugify (host +:+ prefix_of (hk_node hk) (hk_fct hk)).

Definition hk_temperature_children (host : string) (hk : heating_circuit)
  : list device :=
  omap (child_of (child_device host "temperature" (hk_dev_id host hk) (hk_name hk))
                 (hk_name hk) (hk_oids hk))
       temperature_labels.

Definition hk_status_children (host : string) (hk : heating_circuit) : list device :=
  omap (child_of (status_device host (hk_dev_id host hk) (hk_name hk))
                 (hk_name hk) (hk_oids hk))
       status_labels.

(** The descriptors one call of [_build_hk_climate_device] appends. *)
Definition hk_devices (host : string) (hk : heating_circuit) : list device :=
  climate_device host hk ::
  hk_temperature_children host hk ++ hk_status_children host hk.

Definition declared_oids (oids : gmap string string) (ks : list string)
  : gset string :=
  list_to_set (omap (declared_oid oids) ks).

(** The OIDs one call of [_build_hk_climate_device] adds. *)
Definition hk_required (hk : heating_circuit) : gset string :=
  declared_oids (hk_oids hk)
    (control_roles ++ temperature_labels.*1 ++ status_labels.*1).

Definition sensor_type (s : module_sensor) : string :=
  if str_contains "temperatur" (str_lower (s_name s)) then "temperature"
  else "sensor".

Definition mod_dev_id (host : string) (m : module_block) : string :=
  slugify (host +:+ prefix_of (mod_node m) (mod_fct m)).

Definition sensor_device (host : string) (m : module_block) (s : module_sensor)
  : device :=
  child_device host (sensor_type s) (mod_dev_id host m) (mod_name m)
               (mod_name m +:+ " " +:+ s_name s) (s_oid s).

(** The descriptors and OIDs one call of [_build_module_sensors] adds. *)
Definition module_devices (host : string) (m : module_block) : list device :=
  sensor_device host m <$> default [] (mod_sensors m).

Definition module_required (m : module_block) : gset string :=
  list_to_set (s_oid <$> default [] (mod_sensors m)).

Definition circuits (self : client) : list heating_circuit :=
  default [] (spec_heating_circuits (_spec self)).

Definition modules (self : client) : list module_block :=
  default [] (spec_modules (_spec self)).

(** ** Reading descriptors *)

Definition has_type (typ : string) (d : device) : Prop :=
  d !! "type" = Some (DVal (PStr typ)).

#[global] Instance has_type_dec (typ : string) (d : device)
  : Decision (has_type typ d) := ltac:(unfold has_type; apply _).

(** The strings among the values of a dictionary. *)
Definition str_values (m : gmap string pyval) : gset string :=
  list_to_set
    (omap (λ kv : string * pyval,
             match kv.2 with PStr s => Some s | _ => None end)
          (map_to_list m)).

Definition oid_of (d : device) : gset string :=
  match d !! "oid" with
  | Some (DVal (PStr o)) => {[ o ]}
  | _ => ∅
  end.

Definition oids_map_of (d : device) : gset string :=
  match d !! "oids_map" with
  | Some (DMap m) => str_values m
  | _ => ∅
  end.

(** The OIDs a descriptor refers to: its [oid] and every string held by its
    [oids_map]. *)
Definition referenced_oids (d : device) : gset string :=
  oid_of d ∪ oids_map_of d.

(** The same, without an empty string held by an [oids_map]. *)
Definition nonempty_referenced_oids (d : device) : gset string :=
  oid_of d ∪ (oids_map_of d ∖ {[ "" ]}).

(** The child roles of a heating circuit with their label and type, as the
    two child loops of [_build_hk_climate_device] list them. *)
Definition child_roles : list (string * string * string) :=
  ((λ kl : string * string, (kl.1, kl.2, "temperature")) <$> temperature_labels) ++
  ((λ kl : string * string, (kl.1, kl.2, "sensor")) <$> status_labels).

(** Among [emitted] there is the child descriptor of the circuit called
    [name] for the role [r], and it carries [oid]. *)
Definition emits_child (emitted : list device) (name : string)
    (r : string * string * string) (oid : string) : Prop :=
  ∃ d : device,
    d ∈ emitted ∧ has_type r.2 d ∧
    d !! "name" = Some (DVal (PStr (name +:+ r.1.2))) ∧
    d !! "oid" = Some (DVal (PStr oid)).

(** A client as the constructor leaves it for a document without
    [unknown_values] and [eco_default_duration_minutes]. *)
Definition client_of (h : string) (spec : specification) : client :=
  {| host := h; password := "pw"; _spec := spec;
     _unknown_values := {[ PStr "-.-"; PStr "" ]};
     _eco_default_duration_minutes := 180;
     _oids_to_fetch := ∅; devices := [] |}.

(** A circuit that declares the role mode with an empty OID. *)
Definition hk_empty_mode : heating_circuit :=
  {| hk_name := "HK1"; hk_node := PInt 6; hk_fct := PInt 0;
     hk_oids := {[ "mode" := "" ]} |}.

Definition spec_empty_mode : specification :=
  {| spec_heating_circuits := Some [hk_empty_mode]; spec_modules := Some [];
     spec_unknown_values := None; spec_eco_default_duration_minutes := None |}.

(** ** Lookups *)

(** The URL [_lookup] requests for [oid]. *)
Definition lookup_url (self : client) (oid : string) : string :=
  "http://" +:+ host self +:+ "/api/1.0/lookup" +:+ oid.

(** What [_lookup] hands to the loop for an outcome of the transport. *)
Definition looked_up (reply : result json) : json :=
  match reply with
  | Ok js => js
  | Raise _ => JVal PNone
  end.

(** The exception the body of the fetch loop raises on what [_lookup]
    returned, if any: a number other than zero and [True] are no containers,
    a string or a list that holds "value" has no [get], and a value that is
    a list or a dictionary cannot be looked up in a set. *)
Definition loop_raises (js : json) : option exn :=
  match js with
  | JVal PNone => None
  | JVal (PBool b) => if b then Some TypeError else None
  | JVal (PInt z) => if (z =? 0)%Z then None else Some TypeError
  | JVal (PStr s) => if str_contains "value" s then Some AttributeError else None
  | JList l => if existsb (is_str "value") l then Some AttributeError else None
  | JDict d =>
      match d !! "value" with
      | Some (JList _) | Some (JDict _) => Some TypeError
      | _ => None
      end
  end.

(** What one pass of the fetch loop that does not raise leaves in
    [ret["oids"]] for what [_lookup] returned. *)
Definition recorded_value (self : client) (js : json) : json :=
  match js with
  | JDict d =>
      match d !! "value" with
      | Some (JVal v) =>
          if bool_decide (py_key v ∈ _unknown_values self) then JVal PNone
          else JVal v
      | _ => JVal PNone
      end
  | _ => JVal PNone
  end.

(** What it leaves in [ret["units"]]; [None] when it writes no entry. *)
Definition recorded_unit (js : json) : option json :=
  match js with
  | JDict d =>
      match d !! "value" with
      | Some _ => Some (default (JVal PNone) (d !! "unit"))
      | None => None
      end
  | _ => None
  end.

(** No reply to a lookup of a required OID makes the loop raise. *)
Definition replies_accepted (request : string → string → result json)
    (self : client) : Prop :=
  ∀ oid : string,
    oid ∈ _oids_to_fetch (rebuild self) →
    loop_raises (looked_up (request "GET" (lookup_url self oid))) = None.

(** A reply as the device's API documents it: an object whose fields hold
    scalars. *)
Definition scalar_object (js : json) : Prop :=
  match js with
  | JDict d => map_Forall (λ _ x, match x with JVal _ => True | _ => False end) d
  | _ => False
  end.

(** ** A small installation: one circuit with a mode and a room sensor *)

Definition hk1 : heating_circuit :=
  {| hk_name := "HK1"; hk_node := PInt 6; hk_fct := PInt 0;
     hk_oids := {[ "mode" := "/1/6/0/0"; "room_temp" := "/1/6/0/3" ]} |}.

Definition spec1 : specification :=
  {| spec_heating_circuits := Some [hk1]; spec_modules := Some [];
     spec_unknown_values := None; spec_eco_default_duration_minutes := None |}.

Definition client1 : client := client_of "10.0.0.5" spec1.

(** The device answers the mode with "0" and no unit, the room temperature
    with the sentinel "-.-" and a unit, and nothing else. *)
Definition request1 (method url : string) : result json :=
  if String.eqb url "http://10.0.0.5/api/1.0/lookup/1/6/0/0"
  then Ok (JDict {[ "value" := JVal (PStr "0"); "unit" := JVal PNone ]})
  else if String.eqb url "http://10.0.0.5/api/1.0/lookup/1/6/0/3"
  then Ok (JDict {[ "value" := JVal (PStr "-.-"); "unit" := JVal (PStr "C") ]})
  else Raise ClientError.

(** A sequence of setter calls, one per element of [ms]. *)
Definition apply_setters (py : interpreter) (self : client) (ms : list json)
  : result client :=
  for_each ms (set_eco_default_duration_minutes py) self.

(** The device answers the mode with "0" and a null unit, the room
    temperature with "21.5" and a unit. *)
Definition request2 (method url : string) : result json :=
  if String.eqb url "http://10.0.0.5/api/1.0/lookup/1/6/0/0"
  then Ok (JDict {[ "value" := JVal (PStr "0"); "unit" := JVal PNone ]})
  else if String.eqb url "http://10.0.0.5/api/1.0/lookup/1/6/0/3"
  then Ok (JDict {[ "value" := JVal (PStr "21.5"); "unit" := JVal (PStr "°C") ]})
  else Raise ClientError.

(** The device answers the mode with a list as value. *)
Definition request_list_value (method url : string) : result json :=
  if String.eqb url "http://10.0.0.5/api/1.0/lookup/1/6/0/0"
  then Ok (JDict {[ "value" := JList [JVal (PInt 1)] ]})
  else Raise ClientError.

(** The device answers the room temperature with an object as value. *)
Definition request_object_value (method url : string) : result json :=
  if String.eqb url "http://10.0.0.5/api/1.0/lookup/1/6/0/3"
  then Ok (JDict {[ "value" := JDict {[ "raw" := JVal (PStr "21.5") ]};
                    "unit" := JVal (PStr "°C") ]})
  else Raise ClientError.

(** An interpreter with the default limit of 4300 digits whose tables hold
    the no-break space and the Arabic-Indic digits. *)
Definition py_sample : interpreter :=
  {| int_max_str_digits := 4300;
     Py_UNICODE_ISSPACE := λ ch, (ch =? 160)%N;
     Py_UNICODE_TODECIMAL := λ ch,
       if ((1632 <=? ch) && (ch <=? 1641))%N then Some (N.to_nat (ch - 1632))
       else None |}.

(** The number a decimal numeral denotes, its digits read from the left
    after those that gave [acc]. *)
Fixpoint uint_value (acc : Z) (d : Decimal.uint) : Z :=
  match d with
  | Decimal.Nil => acc
  | Decimal.D0 l => uint_value (10 * acc) l
  | Decimal.D1 l => uint_value (10 * acc + 1) l
  | Decimal.D2 l => uint_value (10 * acc + 2) l
  | Decimal.D3 l => uint_value (10 * acc + 3) l
  | Decimal.D4 l => uint_value (10 * acc + 4) l
  | Decimal.D5 l => uint_value (10 * acc + 5) l
  | Decimal.D6 l => uint_value (10 * acc + 6) l
  | Decimal.D7 l => uint_value (10 * acc + 7) l
  | Decimal.D8 l => uint_value (10 * acc + 8) l
  | Decimal.D9 l => uint_value (10 * acc + 9) l
  end.

(** A number written with [n] digits 1. *)
Definition ones (n : nat) : string := string_of_list_ascii (replicate n "1"%char).

(** Two circuits that declare five OIDs between them. *)
Definition hk2 : heating_circuit :=
  {| hk_name := "HK2"; hk_node := PInt 7; hk_fct := PInt 0;
     hk_oids := {[ "mode" := "/1/7/0/0"; "room_temp" := "/1/7/0/3";
                   "pump" := "/1/7/0/9" ]} |}.

Definition client2 : client :=
  client_of "10.0.0.5"
    {| spec_heating_circuits := Some [hk1; hk2]; spec_modules := Some [];
       spec_unknown_values := None; spec_eco_default_duration_minutes := None |}.

(** Documents with a setting the constructor cannot use. *)
Definition spec_with (unknown duration : option json) : specification :=
  {| spec_heating_circuits := None; spec_modules := None;
     spec_unknown_values := unknown;
     spec_eco_default_duration_minutes := duration |}.

(* ===================================================================== *)
(** * The connection of the client *)
(* ===================================================================== *)

Module Connection.

(** The helper object [DigestAuth(username, password, session)]. *)
Record auth : Type := {
  auth_username : string;
  auth_password : string;
  auth_session : nat;
}.

(** The sessions of the HTTP library: [next_session] numbers the sessions
    created so far, [open_sessions] holds those not yet closed. *)
Record net : Type := {
  next_session : nat;
  open_sessions : gset nat;
}.

(** The client together with [self._session] and [self._auth]. The two
    attributes are assigned together (lines 68-69 and 74-75) and nowhere
    else, so they are one optional pair. *)
Record connected : Type := {
  self_client : client;
  _conn : option (nat * auth);
}.

Definition _session (st : connected) : option nat := fst <$> _conn st.
Definition _auth (st : connected) : option auth := snd <$> _conn st.

(** The connection attributes as [__init__] leaves them. *)
Definition unconnected (c : client) : connected :=
  {| self_client := c; _conn := None |}.

Definition with_conn (st : connected) (c : option (nat * auth)) : connected :=
  {| self_client := self_client st; _conn := c |}.

(** [DigestAuth(DEFAULT_USERNAME, self.password, session)] for the session
    the library creates next *)
Definition fresh_auth (DEFAULT_USERNAME : string) (w : net) (st : connected) : auth :=
  {| auth_username := DEFAULT_USERNAME;
     auth_password := password (self_client st);
     auth_session := next_session w |}.

(** [aiohttp.ClientSession()] *)
Definition open_session (w : net) : net * nat :=
  ({| next_session := S (next_session w);
      open_sessions := {[ next_session w ]} ∪ open_sessions w |},
   next_session w).

(** [session.close()] *)
Definition close_session (s : nat) (w : net) : net :=
  {| next_session := next_session w; open_sessions := open_sessions w ∖ {[ s ]} |}.

(** [_ensure_session]; the result carries the session and auth object in
    place after the call. [DEFAULT_USERNAME] comes from [const.py]. *)
Definition _ensure_session (DEFAULT_USERNAME : string) (w : net) (st : connected)
  : net * (nat * auth) :=
  match _conn st with
  | None =>
      let '(w', s) := open_session w in
      (w', (s, {| auth_username := DEFAULT_USERNAME;
                  auth_password := password (self_client st);
                  auth_session := s |}))
  | Some c => (w, c)
  end.

Definition close (w : net) (st : connected) : net * connected :=
  match _conn st with
  | Some (s, _) => (close_session s w, with_conn st None)
  | None => (w, st)
  end.

(** What [self._auth.request] does: a GET followed by [ret.json()], and a PUT
    with a body, each of which returns or raises. *)
Record transport : Type := {
  get_json : auth → string → string → result json;
  put_data : auth → string → string → string → result unit;
}.

(** [_lookup] with its first line, [await self._ensure_session()]. *)
Definition _lookup_connected (DEFAULT_USERNAME : string) (tr : transport)
    (w : net) (st : connected) (oid : string)
  : result json * (net * connected) :=
  let '(w, c) := _ensure_session DEFAULT_USERNAME w st in
  let st := with_conn st (Some c) in
  (_lookup (get_json tr c.2) (self_client st) oid, (w, st)).

(** The double quote. *)
Definition dq : string := String "034"%char EmptyString.

(** [f'{{"OID":"{oid}","value":"{value}"}}'], as UTF-8 bytes *)
Definition update_payload (oid : string) (value : pyval) : string :=
  "{" +:+ dq +:+ "OID" +:+ dq +:+ ":" +:+ dq +:+ oid +:+ dq +:+ "," +:+
  dq +:+ "value" +:+ dq +:+ ":" +:+ dq +:+ py_str value +:+ dq +:+ "}".

Definition update_url (self : client) : string :=
  "http://" +:+ host self +:+ "/api/1.0/datapoint".

Definition update (DEFAULT_USERNAME : string) (tr : transport)
    (w : net) (st : connected) (oid : string) (value : pyval)
  : result unit * (net * connected) :=
  let '(w, c) := _ensure_session DEFAULT_USERNAME w st in
  let st := with_conn st (Some c) in
  let payload := update_payload oid value in
  (try_except (put_data tr c.2 "PUT" (update_url (self_client st)) payload)
              (λ e, Raise e),
   (w, st)).

(** The fetch loop with the first line of [_lookup] in front of each pass.
    An exception ends the loop and leaves the connection as the last lookup
    left it. *)
Fixpoint fetch_loop_connected (DEFAULT_USERNAME : string) (tr : transport)
    (self : client) (oids : list string) (ret : snapshot) (s : net * connected)
  : result snapshot * (net * connected) :=
  match oids with
  | [] => (Ok ret, s)
  | oid :: oids' =>
      let '(w, c) := _ensure_session DEFAULT_USERNAME s.1 s.2 in
      let st := with_conn s.2 (Some c) in
      match fetch_step (get_json tr c.2) self ret oid with
      | Ok ret' =>
          fetch_loop_connected DEFAULT_USERNAME tr self oids' ret' (w, st)
      | Raise e => (Raise e, (w, st))
      end
  end.

(** [fetch_all] on the client with its connection. *)
Definition fetch_all_connected (DEFAULT_USERNAME : string) (tr : transport)
    (w : net) (st : connected) : result snapshot * (net * connected) :=
  let self := rebuild (self_client st) in
  let st := {| self_client := self; _conn := _conn st |} in
  let ret :=
    {| ret_devices := devices self; ret_oids := ∅; ret_units := ∅;
       ret_meta :=
         {[ "eco_default_duration_minutes" :=
              PInt (_eco_default_duration_minutes self) ]} |} in
  fetch_loop_connected DEFAULT_USERNAME tr self
    (sorted (_oids_to_fetch self)) ret (w, st).

(** ** Sequences of calls *)

Inductive op : Type :=
| OpLookup (oid : string)
| OpUpdate (oid : string) (value : pyval)
| OpClose.

Definition run_op (DEFAULT_USERNAME : string) (tr : transport)
    (s : net * connected) (o : op) : net * connected :=
  match o with
  | OpLookup oid => (_lookup_connected DEFAULT_USERNAME tr s.1 s.2 oid).2
  | OpUpdate oid value => (update DEFAULT_USERNAME tr s.1 s.2 oid value).2
  | OpClose => close s.1 s.2
  end.

(** The library before any session was created. *)
Definition net0 : net := {| next_session := 0; open_sessions := ∅ |}.

(** Exactly the current session, if any, is open; it was numbered before
    [next_session]; and the auth object is bound to it and to the client's
    password. *)
Definition conn_ok (DEFAULT_USERNAME : string) (s : net * connected) : Prop :=
  match _conn s.2 with
  | None => open_sessions s.1 = ∅
  | Some (n, a) =>
      open_sessions s.1 = {[ n ]} ∧ (n < next_session s.1)%nat ∧
      a = {| auth_username := DEFAULT_USERNAME;
             auth_password := password (self_client s.2);
             auth_session := n |}
  end.

(** No double quote occurs in [s]. *)
Definition quote_free (s : string) : Prop :=
  ∀ i : nat, String.get i s ≠ Some "034"%char.

End Connection.
Import Connection.

(* ===================================================================== *)
(** * The climate platform ([climate.py]) *)
(* ===================================================================== *)

Module Climate.

(** [homeassistant.components.climate.HVACMode] *)
Inductive HVACMode : Type :=
| HVAC_OFF
| HVAC_HEAT
| HVAC_COOL
| HVAC_HEAT_COOL
| HVAC_AUTO
| HVAC_DRY
| HVAC_FAN_ONLY.

#[global] Instance HVACMode_eq_dec : EqDecision HVACMode := ltac:(solve_decision).

Definition FALLBACK_ECO_MINUTES : Z := 180.

Definition map_mode_from_raw (raw : pyval) : HVACMode :=
  if String.eqb (py_str raw) "0" then HVAC_AUTO
  else if String.eqb (py_str raw) "2" then HVAC_OFF
  else HVAC_HEAT.

Definition map_mode_to_raw (mode : HVACMode) : string :=
  if decide (mode = HVAC_AUTO) then "0"
  else if decide (mode = HVAC_OFF) then "2"
  else "1".

(** The coordinator as the platform reads it: [httpClient] may be missing,
    [data] is [None] before the first refresh. *)
Record coordinator : Type := {
  httpClient : option client;
  data : option snapshot;
}.

(** One [try: val = int(v); if val > 0: return val; except Exception: pass];
    [Some val] is the early return. *)
Definition positive_int (py : interpreter) (v : pyval) : option Z :=
  match try_except (val ← py_int py v; Ok (if (0 <? val)%Z then Some val else None))
                   (λ _, Ok None) with
  | Ok r => r
  | Raise _ => None
  end.

Definition _get_runtime_eco_minutes (py : interpreter) (coordinator : coordinator)
  : Z :=
  let http := httpClient coordinator in
  let first :=
    match http with
    | Some http => positive_int py (PInt (eco_default_duration_minutes http))
    | None => None
    end in
  match first with
  | Some val => val
  | None =>
      let meta := match data coordinator with
                  | Some d => ret_meta d
                  | None => ∅
                  end in
      match positive_int py
              (default (PInt FALLBACK_ECO_MINUTES)
                       (meta !! "eco_default_duration_minutes")) with
      | Some val => val
      | None => FALLBACK_ECO_MINUTES
      end
  end.

(** The two entity classes [async_setup_entry] instantiates per device. *)
Inductive entity : Type :=
| WindhagerClimate (device : device)
| WindhagerClimateNoBias (device : device).

(** The standard entity of a device followed by its no-bias version. *)
Definition entity_pair (d : device) : list entity :=
  [WindhagerClimate d; WindhagerClimateNoBias d].

(** The entity loop of [async_setup_entry] over [coordinator.data]. *)
Definition setup_entities (data : snapshot) : list entity :=
  foldl (λ entities device,
           if decide (device !! "type" = Some (DVal (PStr "climate")))
           then (entities ++
                 [WindhagerClimate device; WindhagerClimateNoBias device])%list
           else entities)
        [] (ret_devices data).

(** What [async_setup_entry] hands to [async_add_entities]; [None] when it
    does not call it. *)
Definition async_setup_entry (data : snapshot) : option (list entity) :=
  let entities := setup_entities data in
  match entities with
  | [] => None
  | _ => Some entities
  end.

(** [device.get(k)] for a scalar field (in the descriptors of the client
    only [oids_map] is not a scalar) *)
Definition dev_get (d : device) (k : string) : pyval :=
  match d !! k with
  | Some (DVal v) => v
  | _ => PNone
  end.

(** [a or b] *)
Definition py_or (a b : pyval) : pyval := if truthy a then a else b.

(** The attributes [WindhagerClimateBase.__init__] sets from the device. *)
Record climate_base : Type := {
  _device : device;
  _oids : gmap string pyval;
  _prefix : dval;
  _attr_unique_id : pyval;
  _attr_name : pyval;
  info_identifier : pyval;
}.

Definition climate_base_init (device : device) : climate_base :=
  let oids := match device !! "oids_map" with
              | Some (DMap m) => m
              | _ => ∅
              end in
  let prefix := default (DVal (PStr "")) (device !! "prefix") in
  let dev_id := py_or (dev_get device "device_id") (dev_get device "id") in
  let name := py_or (py_or (dev_get device "device_name") (dev_get device "name"))
                    (PStr "Windhager Climate") in
  {| _device := device; _oids := oids; _prefix := prefix;
     _attr_unique_id := dev_get device "id"; _attr_name := name;
     info_identifier := dev_id |}.

(** [o.get(key)] on the [oids] mapping of a snapshot, whose keys are strings *)
Definition oids_lookup (o : gmap string json) (key : pyval) : json :=
  match key with
  | PStr s => default (JVal PNone) (o !! s)
  | _ => JVal PNone
  end.

(** The property [available] *)
Definition available (self : climate_base) (data : option snapshot) : bool :=
  let o := match data with
           | Some d => ret_oids d
           | None => ∅
           end in
  negb (is_none (oids_lookup o (dict_get (_oids self) "room_temp"))).

End Climate.
Import Climate.

(* ===================================================================== *)
(** * Properties of the Python fragment *)
(* ===================================================================== *)

Section strings.

Lemma prefix_empty (s : string) : String.prefix "" s = true.
Proof. by destruct s. Qed.

Lemma replace_one_char (a b : ascii) (s : string) :
  str_replace s (String a "") (String b "") =
  str_map (λ c, if Ascii.eqb c a then b else c) s.
Proof.
  unfold str_replace. induction s as [|c s IH]; [done|].
  cbn [replace_from String.prefix str_map String.length Nat.sub].
  destruct (ascii_dec a c) as [->|Hne].
  - rewrite prefix_empty, Ascii.eqb_refl. cbn. by rewrite IH.
  - destruct (Ascii.eqb_spec c a) as [->|_]; [done|]. by rewrite IH.
Qed.

Lemma str_map_map (f g : ascii → ascii) (s : string) :
  str_map g (str_map f s) = str_map (λ c, g (f c)) s.
Proof. induction s as [|c s IH]; cbn; [done|]. by rewrite IH. Qed.

Lemma str_map_ext (f g : ascii → ascii) (s : string) :
  (∀ c, f c = g c) → str_map f s = str_map g s.
Proof. intros E. induction s as [|c s IH]; cbn; [done|]. by rewrite E, IH. Qed.

Lemma str_map_length (f : ascii → ascii) (s : string) :
  String.length (str_map f s) = String.length s.
Proof. induction s as [|c s IH]; cbn; [done|]. by rewrite IH. Qed.

Lemma str_map_get (f : ascii → ascii) (s : string) (i : nat) :
  String.get i (str_map f s) = f <$> String.get i s.
Proof.
  revert i. induction s as [|c s IH]; intros i; cbn; [done|].
  destruct i; [done|]. apply IH.
Qed.



Lemma slug_char_idem (c : ascii) : slug_char (slug_char c) = slug_char c.
Proof.
  unfold slug_char.
  destruct (Ascii.eqb_spec c ".") as [->|?]; [done|].
  destruct (Ascii.eqb_spec c "/") as [->|?]; [done|].
  cbn. destruct (Ascii.eqb_spec c ".");  [done|].
  by destruct (Ascii.eqb_spec c "/").
Qed.

Lemma slugify_str_map (x : string) : slugify x = str_map slug_char x.
Proof.
  unfold slugify. rewrite !replace_one_char, str_map_map.
  apply str_map_ext. intros c. unfold slug_char.
  destruct (Ascii.eqb_spec c ".") as [->|?]; [done|].
  by destruct (Ascii.eqb_spec c "/").
Qed.

End strings.

(** C9. [slugify] is a function of its argument; it maps the string
    character by character, sending '.' and '/' to '-' and every other
    character to itself (so the length is kept and no '.' or '/' is left),
    and applying it twice gives the same result as applying it once. *)
Theorem slugify_replaces_and_idempotent (x : string) :
  slugify x = str_map slug_char x ∧
  String.length (slugify x) = String.length x ∧
  (∀ i : nat, String.get i (slugify x) = slug_char <$> String.get i x) ∧
  (∀ i : nat, String.get i (slugify x) ≠ Some "."%char ∧
              String.get i (slugify x) ≠ Some "/"%char) ∧
  slugify (slugify x) = slugify x.
Proof.
  rewrite !slugify_str_map. split_and!.
  - done.
  - apply str_map_length.
  - intros i. apply str_map_get.
  - intros i. rewrite str_map_get.
    destruct (String.get i x) as [c|]; cbn; [|done].
    unfold slug_char.
    destruct (Ascii.eqb_spec c ".") as [->|?]; [done|].
    destruct (Ascii.eqb_spec c "/") as [->|?]; [done|].
    cbn. split; congruence.
  - rewrite str_map_map. apply str_map_ext, slug_char_idem.
Qed.

(* ===================================================================== *)
(** * Reading back the text of an integer *)
(* ===================================================================== *)

Section int_of_text.

Variable py : interpreter.

Lemma parse_digits_uint (d : Decimal.uint) (acc : Z) (n : nat) (b : bool) :
  b = true ∨ d ≠ Decimal.Nil →
  parse_digits acc n b (NilEmpty.string_of_uint d) =
  Some (uint_value acc d, (n + Decimal.nb_digits d)%nat).
Proof.
  revert acc n b. induction d as [|d IH|d IH|d IH|d IH|d IH|d IH|d IH|d IH|d IH|d IH];
    intros acc n b Hb;
    cbn [NilEmpty.string_of_uint parse_digits uint_value Decimal.nb_digits];
    try (change (digit_of _) with (Some 0%Z) || change (digit_of _) with (Some 1%Z)
         || change (digit_of _) with (Some 2%Z) || change (digit_of _) with (Some 3%Z)
         || change (digit_of _) with (Some 4%Z) || change (digit_of _) with (Some 5%Z)
         || change (digit_of _) with (Some 6%Z) || change (digit_of _) with (Some 7%Z)
         || change (digit_of _) with (Some 8%Z) || change (digit_of _) with (Some 9%Z));
    cbv beta iota;
    try (rewrite IH by (by left); f_equal;
         apply pair_equal_spec; split; [f_equal; lia|lia]).
  destruct Hb as [->|Hd]; [|done]. by rewrite Nat.add_0_r.
Qed.

Lemma uint_value_acc (d : Decimal.uint) (acc : positive) :
  Z.pos (Pos.of_uint_acc d acc) = uint_value (Z.pos acc) d.
Proof.
  revert acc. induction d; intros acc; cbn [Pos.of_uint_acc uint_value];
    [done|rewrite IHd; f_equal; lia..].
Qed.

Lemma uint_value_of_uint (d : Decimal.uint) :
  uint_value 0 d = Z.of_N (Pos.of_uint d).
Proof.
  induction d; cbn [Pos.of_uint uint_value]; [done|by rewrite <- IHd|..];
    by rewrite N2Z.inj_pos, uint_value_acc.
Qed.

Lemma uint_value_to_uint (p : positive) : uint_value 0 (Pos.to_uint p) = Z.pos p.
Proof. by rewrite uint_value_of_uint, DecimalPos.Unsigned.of_to. Qed.

Lemma str_app_nil_r (s : string) : s +:+ "" = s.
Proof.
  induction s as [|c s IH]; [done|].
  change (String c s +:+ "") with (String c (s +:+ "")). by rewrite IH.
Qed.

Lemma str_rev_app_rev (s acc b : string) :
  str_rev_app (str_rev_app s acc) b = str_rev_app acc (s +:+ b).
Proof.
  revert acc b. induction s as [|c s IH]; intros acc b; [done|].
  cbn [str_rev_app]. rewrite IH. done.
Qed.

Lemma str_rev_involutive (s : string) : str_rev (str_rev s) = s.
Proof.
  unfold str_rev. rewrite str_rev_app_rev. cbn. apply str_app_nil_r.
Qed.

Lemma lstrip_rev_digits (d : Decimal.uint) (acc : string) :
  lstrip acc = acc →
  lstrip (str_rev_app (NilEmpty.string_of_uint d) acc) =
  str_rev_app (NilEmpty.string_of_uint d) acc.
Proof.
  revert acc. induction d; intros acc Hacc;
    cbn [NilEmpty.string_of_uint str_rev_app]; [done|by apply IHd..].
Qed.

Lemma lstrip_digits (d : Decimal.uint) :
  lstrip (NilEmpty.string_of_uint d) = NilEmpty.string_of_uint d.
Proof. by destruct d. Qed.

Lemma strip_digits (d : Decimal.uint) :
  strip (NilEmpty.string_of_uint d) = NilEmpty.string_of_uint d.
Proof.
  unfold strip. rewrite lstrip_digits. unfold str_rev at 2.
  rewrite lstrip_rev_digits by done. apply str_rev_involutive.
Qed.

Lemma strip_minus_digits (d : Decimal.uint) :
  strip (String "-" (NilEmpty.string_of_uint d)) =
  String "-" (NilEmpty.string_of_uint d).
Proof.
  unfold strip. change (lstrip (String "-" ?s)) with (String "-" s).
  unfold str_rev at 2. cbn [str_rev_app].
  rewrite lstrip_rev_digits by done.
  change (str_rev_app (NilEmpty.string_of_uint d) "-")
    with (str_rev (String "-" (NilEmpty.string_of_uint d))).
  apply str_rev_involutive.
Qed.

Lemma is_ascii_digits (d : Decimal.uint) :
  is_ascii (NilEmpty.string_of_uint d) = true.
Proof. induction d; cbn [NilEmpty.string_of_uint is_ascii]; [done|exact IHd..]. Qed.

Lemma length_digits (d : Decimal.uint) :
  String.length (NilEmpty.string_of_uint d) = Decimal.nb_digits d.
Proof. induction d; cbn; [done|by rewrite IHd..]. Qed.

Lemma parse_magnitude_digits (d : Decimal.uint) :
  d ≠ Decimal.Nil → (Decimal.nb_digits d ≤ 640)%nat →
  parse_magnitude py (NilEmpty.string_of_uint d) = Some (uint_value 0 d).
Proof.
  intros Hd Hn. unfold parse_magnitude.
  rewrite parse_digits_uint by (by right). cbn [Nat.add].
  unfold exceeds_limit, MAX_STR_DIGITS_THRESHOLD.
  destruct (Nat.ltb_spec 640 (Decimal.nb_digits d)); [lia|done].
Qed.

Lemma int_of_str_digits (d : Decimal.uint) :
  d ≠ Decimal.Nil → (Decimal.nb_digits d ≤ 640)%nat →
  int_of_str py (NilEmpty.string_of_uint d) = Some (uint_value 0 d).
Proof.
  intros Hd Hn. rewrite <- (parse_magnitude_digits d Hd Hn).
  unfold int_of_str, transform_decimal_and_space_to_ascii.
  rewrite is_ascii_digits, strip_digits. by destruct d.
Qed.

Lemma int_of_str_minus_digits (d : Decimal.uint) :
  d ≠ Decimal.Nil → (Decimal.nb_digits d ≤ 640)%nat →
  int_of_str py (String "-" (NilEmpty.string_of_uint d)) =
  Some (- uint_value 0 d)%Z.
Proof.
  intros Hd Hn. unfold int_of_str, transform_decimal_and_space_to_ascii.
  cbn [is_ascii]. rewrite is_ascii_digits.
  change (Nat.ltb (nat_of_ascii "-") 128 && true)%bool with true. cbv iota.
  rewrite strip_minus_digits. cbv iota.
  by rewrite (parse_magnitude_digits d Hd Hn).
Qed.

Lemma py_str_pos (p : positive) :
  py_str (PInt (Z.pos p)) = NilEmpty.string_of_uint (Pos.to_uint p).
Proof.
  pose proof (DecimalPos.Unsigned.to_uint_nonnil p) as Hnil.
  cbn [py_str Z.to_int NilZero.string_of_int]. unfold NilZero.string_of_uint.
  by destruct (Pos.to_uint p).
Qed.

Lemma py_str_neg (p : positive) :
  py_str (PInt (Z.neg p)) = String "-" (NilEmpty.string_of_uint (Pos.to_uint p)).
Proof.
  pose proof (DecimalPos.Unsigned.to_uint_nonnil p) as Hnil.
  cbn [py_str Z.to_int NilZero.string_of_int]. unfold NilZero.string_of_uint.
  by destruct (Pos.to_uint p).
Qed.

(** The text [str()] gives for an integer of at most 640 digits is read back
    by [int()] as that integer. *)
Lemma int_of_str_py_str (z : Z) :
  (String.length (py_str (PInt (Z.abs z))) ≤ 640)%nat →
  int_of_str py (py_str (PInt z)) = Some z.
Proof.
  intros Hlen. destruct z as [|p|p].
  - by destruct py.
  - change (Z.abs (Z.pos p)) with (Z.pos p) in Hlen.
    rewrite py_str_pos in *. rewrite length_digits in Hlen.
    rewrite int_of_str_digits, uint_value_to_uint;
      [done|apply DecimalPos.Unsigned.to_uint_nonnil|done].
  - change (Z.abs (Z.neg p)) with (Z.pos p) in Hlen.
    rewrite py_str_pos in Hlen. rewrite py_str_neg, length_digits in *.
    rewrite int_of_str_minus_digits, uint_value_to_uint;
      [done|apply DecimalPos.Unsigned.to_uint_nonnil|done].
Qed.

End int_of_text.

(* ===================================================================== *)
(** * Loading and the eco/comfort default duration *)
(* ===================================================================== *)

Section eco_duration.

Variable py : interpreter.

Implicit Types (self : client) (m : json).

Lemma setter_returns self m :
  ∃ self', set_eco_default_duration_minutes py self m = Ok self'.
Proof.
  unfold set_eco_default_duration_minutes.
  destruct (int_of_json py m) as [z|e]; cbn; [|by eexists].
  destruct (z <=? 0)%Z; cbn; by eexists.
Qed.

Lemma setter_accepts self m (z : Z) :
  int_of_json py m = Ok z → (0 < z)%Z →
  set_eco_default_duration_minutes py self m = Ok (set_eco z self).
Proof.
  intros Hm Hz. unfold set_eco_default_duration_minutes. rewrite Hm. cbn.
  by destruct (Z.leb_spec z 0); [lia|].
Qed.

Lemma setter_rejects_nonpositive self m (z : Z) :
  int_of_json py m = Ok z → (z ≤ 0)%Z →
  set_eco_default_duration_minutes py self m = Ok self.
Proof.
  intros Hm Hz. unfold set_eco_default_duration_minutes. rewrite Hm. cbn.
  by destruct (Z.leb_spec z 0); [|lia].
Qed.

Lemma setter_rejects_uncoercible self m (e : exn) :
  int_of_json py m = Raise e → set_eco_default_duration_minutes py self m = Ok self.
Proof.
  intros Hm. unfold set_eco_default_duration_minutes. by rewrite Hm.
Qed.

(** What the getter returns after a setter call, by the outcome of
    [int(m)]. *)
Lemma setter_outcome self m :
  ∃ self',
    set_eco_default_duration_minutes py self m = Ok self' ∧
    eco_default_duration_minutes self' =
      match int_of_json py m with
      | Ok z => if (0 <? z)%Z then z else eco_default_duration_minutes self
      | Raise _ => eco_default_duration_minutes self
      end.
Proof.
  destruct (int_of_json py m) as [z|e] eqn:Hm.
  - destruct (Z.ltb_spec 0 z).
    + exists (set_eco z self). split; [by apply setter_accepts|done].
    + exists self. split; [by apply (setter_rejects_nonpositive _ _ z)|done].
  - exists self. split; [by apply (setter_rejects_uncoercible _ _ e)|done].
Qed.

(** The setter keeps a positive duration positive, whatever it is given. *)
Lemma setter_keeps_positive self self' m :
  set_eco_default_duration_minutes py self m = Ok self' →
  (0 < eco_default_duration_minutes self)%Z →
  (0 < eco_default_duration_minutes self')%Z.
Proof.
  intros Hset Hpos. destruct (int_of_json py m) as [z|e] eqn:Hm.
  - destruct (Z.leb_spec z 0).
    + rewrite (setter_rejects_nonpositive _ _ z) in Hset by done. congruence.
    + rewrite (setter_accepts _ _ z) in Hset by done.
      injection Hset as <-. done.
  - rewrite (setter_rejects_uncoercible _ _ e) in Hset by done. congruence.
Qed.

(** Any sequence of setter calls returns and keeps a positive duration
    positive. *)
Lemma setters_keep_positive self (ms : list json) :
  (0 < eco_default_duration_minutes self)%Z →
  ∃ self', apply_setters py self ms = Ok self' ∧
           (0 < eco_default_duration_minutes self')%Z.
Proof.
  unfold apply_setters. revert self.
  induction ms as [|m ms IH]; intros self Hpos; [by exists self|].
  destruct (setter_returns self m) as [self1 Hset1].
  cbn [for_each]. rewrite Hset1. cbn [mbind result_bind].
  apply IH. by apply (setter_keeps_positive self self1 m).
Qed.

(** Construction from a document that omits the duration, or gives a
    positive integer, yields a positive duration. *)
Lemma init_positive (h pw : string) (spec : specification) (c : client) :
  match spec_eco_default_duration_minutes spec with
  | None => True
  | Some v => ∃ z, v = JVal (PInt z) ∧ (0 < z)%Z
  end →
  __init__ py h pw (Ok (DocObject spec)) = Ok c →
  (0 < eco_default_duration_minutes c)%Z.
Proof.
  unfold __init__. cbn. destruct (py_set _) as [u|e]; cbn; [|done].
  destruct (spec_eco_default_duration_minutes spec) as [v|].
  - intros (z & -> & Hz). cbn. by intros [= <-].
  - intros _. cbn. by intros [= <-].
Qed.

(** Text without a character beyond ASCII is read as it stands. *)
Lemma int_of_str_ascii (s : string) :
  is_ascii s = true →
  int_of_str py s =
  match strip s with
  | String "-" r => Z.opp <$> parse_magnitude py r
  | String "+" r => parse_magnitude py r
  | t => parse_magnitude py t
  end.
Proof.
  intros Hs. unfold int_of_str, transform_decimal_and_space_to_ascii.
  by rewrite Hs.
Qed.

End eco_duration.

(** C5. For every client state and every input [m], the setter returns
    without raising; when [int(m)] succeeds with a value above zero the
    getter then returns that value, and when [int(m)] raises or yields a
    value that is zero or negative the getter still returns the prior value.
    [int(m)] is [m] for an integer, 1 or 0 for a boolean, the number a text
    denotes, and raises on [None], on a list, on a dictionary and on a text
    that denotes no number. In particular set(45) gives 45, a following
    set(-1) leaves 45, and a following set("not a number") leaves 45. Texts
    are read as Python reads them: blanks around the number, a sign and
    single underscores between digits are accepted; other characters, a
    separator byte such as 0x1C among them, are not; the text [str(z)] of
    an integer of at most 640 digits is read back as [z]; digits beyond
    ASCII count when the interpreter's Unicode tables hold them; and a
    number of more digits than the interpreter's limit is refused. *)
Theorem eco_setter_validates (py : interpreter) (self : client) (m : json) :
  (∃ self',
     set_eco_default_duration_minutes py self m = Ok self' ∧
     eco_default_duration_minutes self' =
       match int_of_json py m with
       | Ok z => if (0 <? z)%Z then z else eco_default_duration_minutes self
       | Raise _ => eco_default_duration_minutes self
       end) ∧
  int_of_json py m =
    match m with
    | JVal (PInt z) => Ok z
    | JVal (PBool b) => Ok (if b then 1%Z else 0%Z)
    | JVal (PStr s) =>
        match int_of_str py s with
        | Some z => Ok z
        | None => Raise ValueError
        end
    | JVal PNone | JList _ | JDict _ => Raise TypeError
    end ∧
  (∃ c1 c2 c3 : client,
     set_eco_default_duration_minutes py self (JVal (PInt 45)) = Ok c1 ∧
     eco_default_duration_minutes c1 = 45%Z ∧
     set_eco_default_duration_minutes py c1 (JVal (PInt (-1))) = Ok c2 ∧
     eco_default_duration_minutes c2 = 45%Z ∧
     set_eco_default_duration_minutes py c2 (JVal (PStr "not a number")) = Ok c3 ∧
     eco_default_duration_minutes c3 = 45%Z) ∧
  Forall (λ sz : string * option Z, int_of_str py sz.1 = sz.2)
    [("45", Some 45%Z); (" 45 ", Some 45%Z); ("+1_000", Some 1000%Z);
     ("007", Some 7%Z); ("-1", Some (-1)%Z); ("0", Some 0%Z);
     ("not a number", None); ("", None); (" ", None); ("4 5", None);
     ("4.5", None); ("0x2D", None); ("- 1", None); ("+-1", None);
     ("_45", None); ("45_", None); ("4__5", None);
     (String "028" "45", None); (String "000" "", None)] ∧
  (∃ c4 : client,
     set_eco_default_duration_minutes py self (JVal (PStr " 45 ")) = Ok c4 ∧
     eco_default_duration_minutes c4 = 45%Z) ∧
  (∀ z : Z,
     (String.length (py_str (PInt (Z.abs z))) ≤ 640)%nat →
     int_of_str py (py_str (PInt z)) = Some z ∧
     ((0 < z)%Z →
      ∃ c5 : client,
        set_eco_default_duration_minutes py self (JVal (PStr (py_str (PInt z)))) =
          Ok c5 ∧
        eco_default_duration_minutes c5 = z)) ∧
  (Py_UNICODE_ISSPACE py 1636 = false → Py_UNICODE_ISSPACE py 1637 = false →
   Py_UNICODE_TODECIMAL py 1636 = Some 4%nat →
   Py_UNICODE_TODECIMAL py 1637 = Some 5%nat →
   int_of_str py "٤٥" = Some 45%Z) ∧
  (∀ limit : nat,
     int_max_str_digits py = limit →
     (int_of_str py (ones 641) = None ↔ (0 < limit < 641)%nat) ∧
     (limit = 4300%nat →
      int_of_str py (ones 4300) ≠ None ∧ int_of_str py (ones 4301) = None) ∧
     int_of_str py (ones 640) ≠ None).
Proof.
  split_and!.
  - apply setter_outcome.
  - by destruct m as [[]| |].
  - exists (set_eco 45 self), (set_eco 45 self), (set_eco 45 self).
    split_and!; done.
  - destruct py as [mx sp dec]. repeat constructor.
  - exists (set_eco 45 self). split; [|done].
    apply setter_accepts; [|done].
    cbn. assert (int_of_str py " 45 " = Some 45%Z) as -> by (by destruct py). done.
  - intros z Hlen. pose proof (int_of_str_py_str py z Hlen) as Hz.
    split; [done|]. intros Hpos. exists (set_eco z self). split; [|done].
    apply setter_accepts; [|done]. cbn [int_of_json py_int]. by rewrite Hz.
  - intros Hs4 Hs5 Hd4 Hd5.
    unfold int_of_str, transform_decimal_and_space_to_ascii.
    change (is_ascii "٤٥") with false. cbv iota.
    change (chars "٤٥") with ["٤"; "٥"].
    cbn [transform_chars].
    change (code_point "٤") with 1636%N.
    change (code_point "٥") with 1637%N.
    change (1636 <? 127)%N with false. change (1637 <? 127)%N with false.
    cbv iota. rewrite Hs4, Hs5, Hd4, Hd5.
    destruct py as [mx sp dec]. reflexivity.
  - intros limit Hl. destruct py as [mx sp dec]. cbn in Hl. subst mx.
    split_and!.
    + rewrite int_of_str_ascii by (vm_compute; reflexivity).
      assert (parse_digits 0 0 false (ones 641) ≠ None) as Hp
        by (vm_compute; discriminate).
      assert (match parse_digits 0 0 false (ones 641) with
              | Some (_, digits) => digits = 641%nat
              | None => True
              end) as Hd by (vm_compute; reflexivity).
      change (strip (ones 641)) with (ones 641).
      change (ones 641) with (String "1" (ones 640)) at 1.
      cbv iota. change (String "1" (ones 640)) with (ones 641).
      unfold parse_magnitude.
      destruct (parse_digits 0 0 false (ones 641)) as [[z digits]|]; [|done].
      subst digits. unfold exceeds_limit, MAX_STR_DIGITS_THRESHOLD.
      cbn [int_max_str_digits].
      change (640 <? 641)%nat with true. cbn [andb].
      destruct (Nat.ltb_spec 0 limit), (Nat.ltb_spec limit 641); cbn;
        split; (done || lia).
    + intros ->. split; [vm_compute; discriminate|vm_compute; reflexivity].
    + vm_compute. discriminate.
Qed.

Lemma eco_setter_validates_witness :
  int_of_str py_sample "٤٥" = Some 45%Z ∧
  int_of_str py_sample (ones 4301) = None.
Proof.
  pose proof (eco_setter_validates py_sample client1 (JVal (PStr "٤٥")))
    as (_ & _ & _ & _ & _ & _ & Hdigits & Hlimit).
  split.
  - by apply Hdigits.
  - by apply (Hlimit 4300%nat eq_refl).
Defined.

(** C8. Loading never raises; when opening or parsing spec.json raises, the
    loader returns the fallback with empty circuit and module lists, and the
    client built on it has the unknown values "-.-" and "" and a default
    duration of 180 minutes. *)
Theorem load_failure_falls_back (py : interpreter) (h pw : string) :
  (∀ file, ∃ doc, _load_spec file = Ok doc) ∧
  (∀ e : exn,
     _load_spec (Raise e) = Ok (DocObject empty_spec) ∧
     spec_heating_circuits empty_spec = Some [] ∧
     spec_modules empty_spec = Some [] ∧
     ∃ c, __init__ py h pw (Raise e) = Ok c ∧
          _spec c = empty_spec ∧
          _unknown_values c = {[ PStr "-.-"; PStr "" ]} ∧
          eco_default_duration_minutes c = 180%Z).
Proof.
  split.
  - intros [doc|e]; cbn; by eexists.
  - intros e. split_and!; [done..|].
    eexists. split; [reflexivity|]. split_and!; [done| |done].
    cbn. set_solver.
Qed.

(** C6 (evaluation at the failing input). A client constructed from a
    document whose [eco_default_duration_minutes] is 0 reports 0 from the
    getter, and still does after a rejected setter call: the constructor
    does not apply the positivity check that the setter applies. *)
Theorem init_keeps_nonpositive_duration (py : interpreter) :
  ∃ c c',
    __init__ py "10.0.0.5" "pw" (Ok (DocObject spec_zero_duration)) = Ok c ∧
    eco_default_duration_minutes c = 0%Z ∧
    set_eco_default_duration_minutes py c (JVal (PInt (-1))) = Ok c' ∧
    eco_default_duration_minutes c' = 0%Z.
Proof. do 2 eexists. split_and!; reflexivity. Qed.

(* ===================================================================== *)
(** * The device builders *)
(* ===================================================================== *)

Section builders.

Implicit Types (self : client) (hk : heating_circuit) (m : module_block)
  (ds : list device) (os : gset string).

Lemma extend_eq ds ds' os os' self :
  ds = ds' → os = os' → extend ds os self = extend ds' os' self.
Proof. by intros -> ->. Qed.

Lemma extend_nil self : extend [] ∅ self = self.
Proof.
  destruct self. unfold extend. cbn. f_equal.
  - set_solver.
  - apply app_nil_r.
Qed.

Lemma extend_extend ds1 ds2 os1 os2 self :
  extend ds2 os2 (extend ds1 os1 self) = extend (ds1 ++ ds2) (os1 ∪ os2) self.
Proof.
  unfold extend. cbn. f_equal.
  - set_solver.
  - by rewrite app_assoc.
Qed.

Lemma append_device_extend (d : device) self :
  append_device d self = extend [d] ∅ self.
Proof. unfold append_device, extend. f_equal. set_solver. Qed.

Lemma add_oid_extend (oid : string) self :
  add_oid oid self = extend [] {[ oid ]} self.
Proof. unfold add_oid, extend. f_equal. by rewrite app_nil_r. Qed.

Lemma host_extend ds os self : host (extend ds os self) = host self.
Proof. done. Qed.

Lemma spec_extend ds os self : _spec (extend ds os self) = _spec self.
Proof. done. Qed.

Lemma declared_oids_nil (oids : gmap string string) : declared_oids oids [] = ∅.
Proof. done. Qed.

Lemma declared_oids_cons (oids : gmap string string) (k : string) ks :
  declared_oids oids (k :: ks) =
  match declared_oid oids k with
  | Some oid => {[ oid ]} ∪ declared_oids oids ks
  | None => declared_oids oids ks
  end.
Proof. unfold declared_oids. cbn. by destruct (declared_oid oids k). Qed.

Lemma declared_oids_app (oids : gmap string string) ks1 ks2 :
  declared_oids oids (ks1 ++ ks2) = declared_oids oids ks1 ∪ declared_oids oids ks2.
Proof. unfold declared_oids. by rewrite omap_app, list_to_set_app_L. Qed.

Lemma elem_of_declared_oids (oids : gmap string string) ks (oid : string) :
  oid ∈ declared_oids oids ks ↔ ∃ k, k ∈ ks ∧ declared_oid oids k = Some oid.
Proof. unfold declared_oids. by rewrite elem_of_list_to_set, list_elem_of_omap. Qed.

Lemma declared_oid_Some (oids : gmap string string) (k oid : string) :
  declared_oid oids k = Some oid ↔ oids !! k = Some oid ∧ oid ≠ "".
Proof.
  unfold declared_oid. destruct (oids !! k) as [o|]; [|naive_solver].
  cbn. destruct (String.eqb_spec o ""); naive_solver.
Qed.

Lemma register_role_declared (oids : gmap string string) self (k : string) :
  register_role oids self k =
  match declared_oid oids k with
  | Some oid => add_oid oid self
  | None => self
  end.
Proof.
  unfold register_role, declared_oid.
  destruct (oids !! k) as [o|]; [|done]. by destruct (truthy (PStr o)).
Qed.

Lemma child_step_declared mk (name : string) (oids : gmap string string) self kl :
  child_step mk name oids self kl =
  match declared_oid oids kl.1 with
  | Some oid => add_oid oid (append_device (mk (name +:+ kl.2) oid) self)
  | None => self
  end.
Proof.
  unfold child_step, declared_oid.
  destruct (oids !! kl.1) as [o|]; [|done]. by destruct (truthy (PStr o)).
Qed.

Lemma foldl_register_role (oids : gmap string string) self ks :
  foldl (register_role oids) self ks = extend [] (declared_oids oids ks) self.
Proof.
  revert self. induction ks as [|k ks IH]; intros self; cbn [foldl].
  - by rewrite declared_oids_nil, extend_nil.
  - rewrite IH, register_role_declared, declared_oids_cons.
    destruct (declared_oid oids k) as [oid|]; [|done].
    rewrite add_oid_extend, extend_extend. apply extend_eq; [done|set_solver].
Qed.

Lemma foldl_child_step mk (name : string) (oids : gmap string string) self kls :
  foldl (child_step mk name oids) self kls =
  extend (omap (child_of mk name oids) kls) (declared_oids oids kls.*1) self.
Proof.
  revert self. induction kls as [|kl kls IH]; intros self; cbn [foldl].
  - symmetry. apply extend_nil.
  - rewrite IH, child_step_declared. cbn [fmap list_fmap omap list_omap].
    rewrite declared_oids_cons. unfold child_of at 2.
    destruct (declared_oid oids kl.1) as [oid|]; [|done]. cbn [fmap option_fmap option_map].
    rewrite append_device_extend, add_oid_extend, !extend_extend.
    apply extend_eq; [done|set_solver].
Qed.

Lemma build_hk_extend self hk :
  _build_hk_climate_device self hk =
  extend (hk_devices (host self) hk) (hk_required hk) self.
Proof.
  unfold _build_hk_climate_device.
  rewrite append_device_extend, foldl_register_role, !foldl_child_step.
  rewrite !host_extend, !extend_extend.
  apply extend_eq.
  - done.
  - unfold hk_required.
    by rewrite !declared_oids_app, (left_id_L ∅ (∪)).
Qed.

Lemma foldl_sensor_step (name dev_id : string) self (l : list module_sensor) :
  foldl (sensor_step name dev_id) self l =
  extend ((λ s, child_device (host self) (sensor_type s) dev_id name
                  (name +:+ " " +:+ s_name s) (s_oid s)) <$> l)
         (list_to_set (s_oid <$> l)) self.
Proof.
  revert self. induction l as [|s l IH]; intros self; cbn [foldl].
  - cbn. by rewrite extend_nil.
  - rewrite IH. unfold sensor_step at 2.
    rewrite append_device_extend, add_oid_extend, !extend_extend.
    apply extend_eq; [done|]. cbn. set_solver.
Qed.

Lemma build_module_extend self m :
  _build_module_sensors self m =
  extend (module_devices (host self) m) (module_required m) self.
Proof. unfold _build_module_sensors. by rewrite foldl_sensor_step. Qed.

Lemma foldl_build_hk self (hks : list heating_circuit) :
  foldl _build_hk_climate_device self hks =
  extend (concat (hk_devices (host self) <$> hks)) (⋃ (hk_required <$> hks)) self.
Proof.
  revert self. induction hks as [|hk hks IH]; intros self; cbn [foldl].
  - cbn. by rewrite extend_nil.
  - rewrite IH, build_hk_extend, host_extend, extend_extend.
    by apply extend_eq.
Qed.

Lemma foldl_build_module self (ms : list module_block) :
  foldl _build_module_sensors self ms =
  extend (concat (module_devices (host self) <$> ms))
         (⋃ (module_required <$> ms)) self.
Proof.
  revert self. induction ms as [|m ms IH]; intros self; cbn [foldl].
  - cbn. by rewrite extend_nil.
  - rewrite IH, build_module_extend, host_extend, extend_extend.
    by apply extend_eq.
Qed.

(** The whole build, as a list of descriptors and a set of OIDs. *)
Lemma rebuild_extend self :
  rebuild self =
  extend (concat (hk_devices (host self) <$> circuits self) ++
          concat (module_devices (host self) <$> modules self))
         (⋃ (hk_required <$> circuits self) ∪
          ⋃ (module_required <$> modules self))
         (reset_cycle self).
Proof.
  unfold rebuild, circuits, modules.
  rewrite foldl_build_module, foldl_build_hk, spec_extend, host_extend, extend_extend.
  done.
Qed.

Lemma devices_rebuild self :
  devices (rebuild self) =
  (concat (hk_devices (host self) <$> circuits self) ++
   concat (module_devices (host self) <$> modules self))%list.
Proof. by rewrite rebuild_extend. Qed.

Lemma oids_rebuild self :
  _oids_to_fetch (rebuild self) =
  ⋃ (hk_required <$> circuits self) ∪ ⋃ (module_required <$> modules self).
Proof. rewrite rebuild_extend. cbn. set_solver. Qed.

End builders.

(* ===================================================================== *)
(** * Descriptors *)
(* ===================================================================== *)

Section descriptors.

Implicit Types (hk : heating_circuit) (d : device).

Lemma child_device_fields (h typ dev_id name nice oid : string) :
  let d := child_device h typ dev_id name nice oid in
  d !! "type" = Some (DVal (PStr typ)) ∧
  d !! "name" = Some (DVal (PStr nice)) ∧
  d !! "oid" = Some (DVal (PStr oid)) ∧
  d !! "oids_map" = None.
Proof. unfold child_device. split_and!; by simplify_map_eq. Qed.

Lemma status_device_fields (h dev_id name nice oid : string) :
  let d := status_device h dev_id name nice oid in
  d !! "type" = Some (DVal (PStr "sensor")) ∧
  d !! "name" = Some (DVal (PStr nice)) ∧
  d !! "oid" = Some (DVal (PStr oid)) ∧
  d !! "oids_map" = None.
Proof. unfold status_device. split_and!; by simplify_map_eq. Qed.

Lemma climate_device_fields (h : string) hk :
  let d := climate_device h hk in
  d !! "type" = Some (DVal (PStr "climate")) ∧
  d !! "name" = Some (DVal (PStr (hk_name hk))) ∧
  d !! "oid" = None ∧
  ∃ m, d !! "oids_map" = Some (DMap m) ∧
       ∀ k, m !! k = if decide (k ∈ control_roles)
                     then Some (oids_get (hk_oids hk) k) else None.
Proof.
  unfold climate_device. split_and!; try by simplify_map_eq.
  eexists. split; [by simplify_map_eq|].
  intros k. unfold control_roles.
  destruct (decide (k = "mode")) as [->|?]; [by simplify_map_eq|].
  destruct (decide (k = "comfort_offset")) as [->|?]; [by simplify_map_eq|].
  destruct (decide (k = "eco_temp")) as [->|?]; [by simplify_map_eq|].
  destruct (decide (k = "eco_duration")) as [->|?]; [by simplify_map_eq|].
  destruct (decide (k = "room_temp")) as [->|?]; [by simplify_map_eq|].
  destruct (decide (k = "room_target_ro")) as [->|?]; [by simplify_map_eq|].
  rewrite decide_False by set_solver. by simplify_map_eq.
Qed.

Lemma has_type_inj (t1 t2 : string) d : has_type t1 d → has_type t2 d → t1 = t2.
Proof. unfold has_type. congruence. Qed.

Lemma filter_none {A} (P : A → Prop) `{!∀ x, Decision (P x)} (l : list A) :
  Forall (λ x, ¬ P x) l → filter P l = [].
Proof.
  induction 1 as [|x l Hx _ IH]; [done|]. by rewrite filter_cons_False.
Qed.

Lemma filter_concat_fmap {A B} (P : B → Prop) `{!∀ x, Decision (P x)}
    (f : A → list B) (l : list A) :
  filter P (concat (f <$> l)) = concat ((λ x, filter P (f x)) <$> l).
Proof.
  induction l as [|x l IH]; [done|]. cbn. by rewrite filter_app, IH.
Qed.

Lemma Forall_children (P : device → Prop) mk (name : string)
    (oids : gmap string string) kls :
  (∀ nice o, P (mk nice o)) → Forall P (omap (child_of mk name oids) kls).
Proof.
  intros Hmk. apply Forall_forall. intros d [kl [_ Hd]]%list_elem_of_omap.
  unfold child_of in Hd. destruct (declared_oid oids kl.1); naive_solver.
Qed.

Lemma temperature_children_typed (h : string) hk :
  Forall (has_type "temperature") (hk_temperature_children h hk).
Proof. apply Forall_children. intros. apply child_device_fields. Qed.

Lemma status_children_typed (h : string) hk :
  Forall (has_type "sensor") (hk_status_children h hk).
Proof. apply Forall_children. intros. apply status_device_fields. Qed.

Lemma sensor_type_cases (s : module_sensor) :
  sensor_type s = "temperature" ∨ sensor_type s = "sensor".
Proof. unfold sensor_type. destruct (str_contains _ _); auto. Qed.

Lemma module_devices_typed (h : string) (m : module_block) :
  Forall (λ d, has_type "temperature" d ∨ has_type "sensor" d) (module_devices h m).
Proof.
  unfold module_devices. apply Forall_fmap, Forall_forall. intros s _. cbn.
  unfold sensor_device, has_type.
  destruct (sensor_type_cases s) as [-> | ->]; [left|right];
    apply child_device_fields.
Qed.

Lemma filter_climate_hk (h : string) hk :
  filter (has_type "climate") (hk_devices h hk) = [climate_device h hk].
Proof.
  unfold hk_devices.
  rewrite filter_cons_True by apply climate_device_fields.
  rewrite filter_none; [done|]. apply Forall_app. split.
  - eapply Forall_impl; [apply temperature_children_typed|].
    intros d H1 H2. by specialize (has_type_inj _ _ _ H1 H2).
  - eapply Forall_impl; [apply status_children_typed|].
    intros d H1 H2. by specialize (has_type_inj _ _ _ H1 H2).
Qed.

Lemma filter_climate_module (h : string) (m : module_block) :
  filter (has_type "climate") (module_devices h m) = [].
Proof.
  apply filter_none. eapply Forall_impl; [apply module_devices_typed|].
  intros d [H1|H1] H2; by specialize (has_type_inj _ _ _ H1 H2).
Qed.

End descriptors.

(** C2. For every client (hence every specification it holds), the
    climate-typed descriptors of the rebuilt device list are, in order,
    exactly the parent descriptors of the heating circuits, one per circuit;
    and the [oids_map] of each has exactly the six keys mode,
    comfort_offset, eco_temp, eco_duration, room_temp and room_target_ro,
    each mapped to the circuit's OID for that role when the circuit declares
    one and to [None] otherwise. *)
Theorem one_climate_device_per_circuit (self : client) :
  filter (has_type "climate") (devices (rebuild self)) =
    climate_device (host self) <$> circuits self ∧
  length (filter (has_type "climate") (devices (rebuild self))) =
    length (circuits self) ∧
  ∀ hk : heating_circuit,
    has_type "climate" (climate_device (host self) hk) ∧
    ∃ m : gmap string pyval,
      climate_device (host self) hk !! "oids_map" = Some (DMap m) ∧
      dom m = {[ "mode"; "comfort_offset"; "eco_temp"; "eco_duration";
                 "room_temp"; "room_target_ro" ]} ∧
      Forall (λ k, m !! k = Some match hk_oids hk !! k with
                                  | Some oid => PStr oid
                                  | None => PNone
                                  end)
             ["mode"; "comfort_offset"; "eco_temp"; "eco_duration";
              "room_temp"; "room_target_ro"].
Proof.
  assert (filter (has_type "climate") (devices (rebuild self)) =
          climate_device (host self) <$> circuits self) as Hfilter.
  { rewrite devices_rebuild, filter_app, !filter_concat_fmap.
    assert (concat ((λ m, filter (has_type "climate")
                            (module_devices (host self) m)) <$> modules self) = [])
      as ->.
    { induction (modules self) as [|m ms IH]; [done|].
      by rewrite fmap_cons, concat_cons, filter_climate_module, IH. }
    rewrite app_nil_r.
    induction (circuits self) as [|hk hks IH]; [done|].
    by rewrite !fmap_cons, concat_cons, filter_climate_hk, IH. }
  split_and!.
  - done.
  - by rewrite Hfilter, length_fmap.
  - intros hk.
    destruct (climate_device_fields (host self) hk) as (Ht & _ & _ & m & Hm & Hk).
    split; [done|]. exists m. split_and!; [done| |].
    + apply set_eq. intros k. rewrite elem_of_dom, Hk.
      case_decide as Hin; unfold control_roles in Hin.
      * split; [set_solver|by eexists].
      * split; [by intros [??]|set_solver].
    + apply Forall_forall. intros k Hin. rewrite Hk.
      rewrite decide_True by done. unfold oids_get.
      by destruct (hk_oids hk !! k).
Qed.

(* ===================================================================== *)
(** * Children of a heating circuit and the required OIDs *)
(* ===================================================================== *)

Section required_oids.

Implicit Types (hk : heating_circuit) (d : device) (oids : gmap string string).

Lemma elem_of_str_values (m : gmap string pyval) (x : string) :
  x ∈ str_values m ↔ ∃ k, m !! k = Some (PStr x).
Proof.
  unfold str_values. rewrite elem_of_list_to_set, list_elem_of_omap. split.
  - intros [[k v] [Hin Hv]]. apply elem_of_map_to_list in Hin. cbn in Hv.
    destruct v; naive_solver.
  - intros [k Hk]. exists (k, PStr x). by rewrite elem_of_map_to_list.
Qed.

Lemma nonempty_referenced_child (h typ dev_id name nice oid : string) :
  nonempty_referenced_oids (child_device h typ dev_id name nice oid) = {[ oid ]}.
Proof.
  destruct (child_device_fields h typ dev_id name nice oid) as (_ & _ & Ho & Hm).
  unfold nonempty_referenced_oids, oid_of, oids_map_of. rewrite Ho, Hm.
  set_solver.
Qed.

Lemma nonempty_referenced_status (h dev_id name nice oid : string) :
  nonempty_referenced_oids (status_device h dev_id name nice oid) = {[ oid ]}.
Proof.
  destruct (status_device_fields h dev_id name nice oid) as (_ & _ & Ho & Hm).
  unfold nonempty_referenced_oids, oid_of, oids_map_of. rewrite Ho, Hm.
  set_solver.
Qed.

Lemma oids_get_str oids (k x : string) :
  oids_get oids k = PStr x ↔ oids !! k = Some x.
Proof. unfold oids_get. destruct (oids !! k); naive_solver. Qed.

Lemma nonempty_referenced_climate (h : string) hk :
  nonempty_referenced_oids (climate_device h hk) =
  declared_oids (hk_oids hk) control_roles.
Proof.
  destruct (climate_device_fields h hk) as (_ & _ & Ho & m & Hm & Hk).
  unfold nonempty_referenced_oids, oid_of, oids_map_of. rewrite Ho, Hm.
  apply set_eq. intros x.
  rewrite elem_of_union, elem_of_difference, elem_of_str_values,
    elem_of_declared_oids.
  split.
  - intros [?|[[k Hx] Hne]]; [set_solver|].
    rewrite Hk in Hx. case_decide; [|done].
    exists k. split; [done|]. apply declared_oid_Some.
    split; [|set_solver]. apply oids_get_str. congruence.
  - intros (k & Hin & [Hx Hne]%declared_oid_Some). right.
    split; [|set_solver]. exists k. rewrite Hk, decide_True by done.
    f_equal. by apply oids_get_str.
Qed.

Lemma nonempty_referenced_children mk (name : string) oids kls :
  (∀ nice o, nonempty_referenced_oids (mk nice o) = {[ o ]}) →
  ⋃ (nonempty_referenced_oids <$> omap (child_of mk name oids) kls) =
  declared_oids oids kls.*1.
Proof.
  intros Hmk. induction kls as [|kl kls IH]; [done|].
  cbn [fmap list_fmap omap list_omap]. rewrite declared_oids_cons.
  unfold child_of at 1. destruct (declared_oid oids kl.1) as [oid|]; [|done].
  cbn [fmap option_fmap option_map list_fmap]. rewrite union_list_cons, Hmk.
  by rewrite <- IH.
Qed.

Lemma nonempty_referenced_hk (h : string) hk :
  ⋃ (nonempty_referenced_oids <$> hk_devices h hk) = hk_required hk.
Proof.
  unfold hk_devices, hk_required.
  rewrite fmap_cons, union_list_cons, fmap_app, union_list_app_L.
  rewrite !declared_oids_app, nonempty_referenced_climate.
  unfold hk_temperature_children, hk_status_children.
  rewrite !nonempty_referenced_children; [done|..].
  - intros. apply nonempty_referenced_status.
  - intros. apply nonempty_referenced_child.
Qed.

Lemma nonempty_referenced_module (h : string) (m : module_block) :
  ⋃ (nonempty_referenced_oids <$> module_devices h m) = module_required m.
Proof.
  unfold module_devices, module_required.
  induction (default [] (mod_sensors m)) as [|s l IH]; [done|].
  rewrite !fmap_cons, union_list_cons, list_to_set_cons, IH.
  unfold sensor_device. by rewrite nonempty_referenced_child.
Qed.

Lemma union_list_concat_fmap {A} (f : device → gset string)
    (g : A → list device) (l : list A) :
  ⋃ (f <$> concat (g <$> l)) = ⋃ ((λ x, ⋃ (f <$> g x)) <$> l).
Proof.
  induction l as [|x l IH]; [done|].
  by rewrite !fmap_cons, concat_cons, fmap_app, union_list_app_L,
    union_list_cons, IH.
Qed.

Lemma required_is_nonempty_referenced (self : client) :
  _oids_to_fetch (rebuild self) =
  ⋃ (nonempty_referenced_oids <$> devices (rebuild self)).
Proof.
  rewrite oids_rebuild, devices_rebuild, fmap_app, union_list_app_L.
  rewrite !union_list_concat_fmap. f_equal.
  - f_equal. apply list_fmap_ext. intros _ hk _.
    by rewrite nonempty_referenced_hk.
  - f_equal. apply list_fmap_ext. intros _ m _.
    by rewrite nonempty_referenced_module.
Qed.

End required_oids.

Section children.

Implicit Types (hk : heating_circuit) (d : device) (oids : gmap string string).

Lemma child_device_shape (h typ dev_id name nice o : string) :
  has_type typ (child_device h typ dev_id name nice o) ∧
  child_device h typ dev_id name nice o !! "name" = Some (DVal (PStr nice)) ∧
  child_device h typ dev_id name nice o !! "oid" = Some (DVal (PStr o)).
Proof.
  by destruct (child_device_fields h typ dev_id name nice o) as (? & ? & ? & _).
Qed.

Lemma status_device_shape (h dev_id name nice o : string) :
  has_type "sensor" (status_device h dev_id name nice o) ∧
  status_device h dev_id name nice o !! "name" = Some (DVal (PStr nice)) ∧
  status_device h dev_id name nice o !! "oid" = Some (DVal (PStr o)).
Proof.
  by destruct (status_device_fields h dev_id name nice o) as (? & ? & ? & _).
Qed.

Lemma temperature_labels_nodup : NoDup temperature_labels.*2.
Proof. by apply (bool_decide_unpack _). Qed.

Lemma status_labels_nodup : NoDup status_labels.*2.
Proof. by apply (bool_decide_unpack _). Qed.

Lemma label_determines_role {A B} (l : list (A * B)) (a a' : A) (b : B) :
  NoDup l.*2 → (a, b) ∈ l → (a', b) ∈ l → a = a'.
Proof.
  induction l as [|[x y] l IH]; cbn; intros Hnd H1 H2; [by inversion H1|].
  apply NoDup_cons in Hnd as [Hy Hnd].
  apply elem_of_cons in H1 as [H1|H1]; apply elem_of_cons in H2 as [H2|H2].
  - congruence.
  - injection H1 as -> ->. destruct Hy. apply list_elem_of_fmap. by exists (a', y).
  - injection H2 as -> ->. destruct Hy. apply list_elem_of_fmap. by exists (a, y).
  - by apply IH.
Qed.

(** Within one child loop, the child for a role is there exactly when the
    role has a non-empty OID. *)
Lemma loop_emits_child mk (name : string) oids kls (role label typ oid : string) :
  (∀ nice o, has_type typ (mk nice o) ∧
             mk nice o !! "name" = Some (DVal (PStr nice)) ∧
             mk nice o !! "oid" = Some (DVal (PStr o))) →
  NoDup kls.*2 → (role, label) ∈ kls →
  emits_child (omap (child_of mk name oids) kls) name (role, label, typ) oid ↔
  declared_oid oids role = Some oid.
Proof.
  intros Hmk Hnd Hin. unfold emits_child. cbn. split.
  - intros (d & [[k l] [Hkl Hd]]%list_elem_of_omap & _ & Hname & Hoid).
    unfold child_of in Hd. cbn in Hd.
    destruct (declared_oid oids k) as [o|] eqn:Hk; [|done].
    injection Hd as <-.
    destruct (Hmk (name +:+ l) o) as (_ & Hn & Ho).
    rewrite Hn in Hname. rewrite Ho in Hoid.
    injection Hname as Hl%(inj (String.append name)). subst l.
    injection Hoid as ->.
    by rewrite (label_determines_role kls role k label).
  - intros Hdecl. exists (mk (name +:+ label) oid).
    destruct (Hmk (name +:+ label) oid) as (Ht & Hn & Ho).
    split_and!; [|done..].
    apply list_elem_of_omap. exists (role, label). split; [done|].
    unfold child_of. cbn. by rewrite Hdecl.
Qed.

Lemma emits_child_hk_devices (h : string) hk (r : string * string * string)
    (oid : string) :
  emits_child (hk_devices h hk) (hk_name hk) r oid ↔
  emits_child (hk_temperature_children h hk) (hk_name hk) r oid ∨
  emits_child (hk_status_children h hk) (hk_name hk) r oid.
Proof.
  unfold emits_child, hk_devices. split.
  - intros (d & Hin & Ht & Hn & Ho).
    apply elem_of_cons in Hin as [->|Hin].
    + destruct (climate_device_fields h hk) as (_ & _ & Hoid & _). congruence.
    + apply elem_of_app in Hin as [Hin|Hin]; [left|right]; by exists d.
  - intros [(d & Hin & H)|(d & Hin & H)]; exists d; (split; [|done]);
      apply elem_of_cons; right; apply elem_of_app; auto.
Qed.

Lemma emits_typed (P : string) (l : list device) (name : string)
    (r : string * string * string) (oid : string) :
  Forall (has_type P) l → emits_child l name r oid → r.2 = P.
Proof.
  intros Hall (d & Hin & Ht & _).
  rewrite Forall_forall in Hall. by apply (has_type_inj _ _ d); [|apply Hall].
Qed.

Lemma hk_emits_child (h : string) hk (r : string * string * string) (oid : string) :
  r ∈ child_roles →
  emits_child (hk_devices h hk) (hk_name hk) r oid ↔
  hk_oids hk !! r.1.1 = Some oid ∧ oid ≠ "".
Proof.
  intros Hr. rewrite emits_child_hk_devices, <- declared_oid_Some.
  unfold child_roles in Hr.
  apply elem_of_app in Hr as [Hr|Hr];
    apply list_elem_of_fmap in Hr as ([role label] & -> & Hin); cbn [fst snd].
  - split.
    + intros [He|He].
      * eapply loop_emits_child; [| apply temperature_labels_nodup | done | done].
        intros. apply child_device_shape.
      * by apply (emits_typed "sensor") in He; [|apply status_children_typed].
    + intros Hd. left.
      eapply loop_emits_child; [| apply temperature_labels_nodup | done | done].
      intros. apply child_device_shape.
  - split.
    + intros [He|He].
      * by apply (emits_typed "temperature") in He;
          [|apply temperature_children_typed].
      * eapply loop_emits_child; [| apply status_labels_nodup | done | done].
        intros. apply status_device_shape.
    + intros Hd. right.
      eapply loop_emits_child; [| apply status_labels_nodup | done | done].
      intros. apply status_device_shape.
Qed.

End children.

(** C4 (as amended). Each call of [_build_hk_climate_device] appends the
    parent descriptor followed by the children; for each of the nine child
    roles (room_temp, room_target_ro, flow_temp, flow_target, dhw_temp,
    dhw_target_ro, outside_temp typed temperature; pump, mixer typed sensor)
    the child descriptor for that role is among them, carrying OID [oid],
    exactly when the circuit declares the non-empty OID [oid] for the role.
    The device list of a build is the concatenation of what the calls
    append. The required-OID set equals the union, over the emitted
    descriptors, of the descriptor's [oid] and the non-empty strings of its
    [oids_map]; so it holds no OID that no descriptor refers to, and the only
    referenced OID it can lack is the empty string. *)
Theorem children_iff_declared_and_required_oids (self : client) :
  (∀ hk : heating_circuit,
     devices (_build_hk_climate_device self hk) =
       (devices self ++ hk_devices (host self) hk)%list ∧
     Forall (λ r : string * string * string,
               ∀ oid : string,
                 emits_child (hk_devices (host self) hk) (hk_name hk) r oid ↔
                 hk_oids hk !! r.1.1 = Some oid ∧ oid ≠ "")
            child_roles) ∧
  child_roles.*1.*1 =
    ["room_temp"; "room_target_ro"; "flow_temp"; "flow_target"; "dhw_temp";
     "dhw_target_ro"; "outside_temp"; "pump"; "mixer"] ∧
  devices (rebuild self) =
    (concat (hk_devices (host self) <$> circuits self) ++
     concat (module_devices (host self) <$> modules self))%list ∧
  _oids_to_fetch (rebuild self) =
    ⋃ (nonempty_referenced_oids <$> devices (rebuild self)) ∧
  _oids_to_fetch (rebuild self) ⊆ ⋃ (referenced_oids <$> devices (rebuild self)) ∧
  ⋃ (referenced_oids <$> devices (rebuild self)) ∖ {[ "" ]} ⊆
    _oids_to_fetch (rebuild self).
Proof.
  split_and!.
  - intros hk. split.
    + by rewrite build_hk_extend.
    + apply Forall_forall. intros r Hr oid. by apply hk_emits_child.
  - done.
  - apply devices_rebuild.
  - apply required_is_nonempty_referenced.
  - rewrite required_is_nonempty_referenced.
    intros x (X & (d & -> & Hd)%list_elem_of_fmap & Hx)%elem_of_union_list.
    apply elem_of_union_list. exists (referenced_oids d).
    split; [apply list_elem_of_fmap; by exists d|].
    unfold nonempty_referenced_oids, referenced_oids in *. set_solver.
  - rewrite required_is_nonempty_referenced.
    intros x [(X & (d & -> & Hd)%list_elem_of_fmap & Hx)%elem_of_union_list Hne]%elem_of_difference.
    apply elem_of_union_list. exists (nonempty_referenced_oids d).
    split; [apply list_elem_of_fmap; by exists d|].
    unfold nonempty_referenced_oids, referenced_oids in *. set_solver.
Qed.

Lemma hk_required_nonempty (hk : heating_circuit) : "" ∉ hk_required hk.
Proof.
  unfold hk_required.
  by intros (k & _ & [_ Hne]%declared_oid_Some)%elem_of_declared_oids.
Qed.

Lemma empty_not_required_without_modules (self : client) :
  modules self = [] → "" ∉ _oids_to_fetch (rebuild self).
Proof.
  intros Hm. rewrite oids_rebuild, Hm, fmap_nil, union_list_nil.
  intros [Hx|Hx]%elem_of_union; [|by apply elem_of_empty in Hx].
  apply elem_of_union_list in Hx as (X & (hk & -> & _)%list_elem_of_fmap & Hx).
  by apply hk_required_nonempty in Hx.
Qed.

Lemma empty_mode_referenced (self : client) (hk : heating_circuit) :
  hk ∈ circuits self → hk_oids hk !! "mode" = Some "" →
  "" ∈ ⋃ (referenced_oids <$> devices (rebuild self)).
Proof.
  intros Hin Hmode. rewrite devices_rebuild. apply elem_of_union_list.
  exists (referenced_oids (climate_device (host self) hk)). split.
  - apply list_elem_of_fmap. eexists. split; [done|].
    apply elem_of_app. left. apply list_elem_of_In, in_concat.
    exists (hk_devices (host self) hk). split.
    + apply list_elem_of_In, list_elem_of_fmap. by exists hk.
    + apply list_elem_of_In, elem_of_cons. by left.
  - destruct (climate_device_fields (host self) hk) as (_ & _ & _ & m & Hm & Hk).
    unfold referenced_oids, oids_map_of. rewrite Hm.
    apply elem_of_union. right. apply elem_of_str_values.
    exists "mode". rewrite Hk, decide_True by set_solver.
    unfold oids_get. by rewrite Hmode.
Qed.

(** C4 (counterexample to the claim as written). A circuit that declares
    mode as the empty string gets a parent descriptor whose [oids_map] holds
    that empty string, while the required-OID set stays empty: the set is not
    the union of all OIDs the descriptors refer to. *)
Lemma empty_mode_oid_not_required :
  let c := rebuild (client_of "10.0.0.5" spec_empty_mode) in
  ("" ∈ ⋃ (referenced_oids <$> devices c)) ∧
  ("" ∉ _oids_to_fetch c) ∧
  _oids_to_fetch c ≠ ⋃ (referenced_oids <$> devices c).
Proof.
  cbv zeta.
  pose proof (empty_mode_referenced (client_of "10.0.0.5" spec_empty_mode)
                hk_empty_mode (list_elem_of_here _ _) eq_refl) as Hin.
  pose proof (empty_not_required_without_modules
                (client_of "10.0.0.5" spec_empty_mode) eq_refl) as Hout.
  split; [exact Hin|]. split; [exact Hout|].
  intros Heq. apply Hout. rewrite Heq. exact Hin.
Qed.

(* ===================================================================== *)
(** * Module sensors *)
(* ===================================================================== *)

Section module_sensors.

Implicit Types (self : client) (m : module_block) (s : module_sensor).

Lemma devices_extend (ds : list device) (os : gset string) self :
  devices (extend ds os self) = (devices self ++ ds)%list.
Proof. done. Qed.







End module_sensors.


(* ===================================================================== *)
(** * The fetch cycle *)
(* ===================================================================== *)

Section fetch.

Variable request : string → string → result json.

Implicit Types (self : client) (ret : snapshot) (oid : string).

Lemma lookup_outcome self oid :
  _lookup request self oid = Ok (looked_up (request "GET" (lookup_url self oid))).
Proof.
  unfold _lookup, lookup_url. by destruct (request _ _).
Qed.

Lemma size_lookup_Some {A} (d : gmap string A) (k : string) (x : A) :
  d !! k = Some x → Nat.eqb (size d) 0 = false.
Proof.
  intros Hk. apply Nat.eqb_neq. intros ->%map_size_empty_iff.
  by rewrite lookup_empty in Hk.
Qed.

(** One pass of the loop raises what [loop_raises] says, and otherwise
    writes what [recorded_value] and [recorded_unit] say. *)
Lemma fetch_step_outcome self ret oid :
  fetch_step request self ret oid =
  let js := looked_up (request "GET" (lookup_url self oid)) in
  match loop_raises js with
  | Some e => Raise e
  | None =>
      Ok {| ret_devices := ret_devices ret;
            ret_oids := <[oid := recorded_value self js]> (ret_oids ret);
            ret_units := match recorded_unit js with
                         | Some u => <[oid := u]> (ret_units ret)
                         | None => ret_units ret
                         end;
            ret_meta := ret_meta ret |}
  end.
Proof.
  cbv zeta. unfold fetch_step. rewrite lookup_outcome. cbn [mbind result_bind].
  destruct (looked_up _) as [[|b|z|s]|l|d].
  - done.
  - by destruct b.
  - cbn. by destruct (z =? 0)%Z.
  - cbn [json_truthy truthy py_in loop_raises recorded_value recorded_unit].
    destruct (String.eqb_spec s "") as [->|Hs]; cbn; [done|].
    by destruct (str_contains "value" s).
  - cbn [json_truthy py_in loop_raises recorded_value recorded_unit].
    destruct l as [|x l]; [done|]. cbn [length Nat.eqb negb].
    cbn [mbind result_bind].
    by destruct (existsb (is_str "value") (x :: l)).
  - cbn [json_truthy py_in py_get loop_raises recorded_value recorded_unit].
    destruct (d !! "value") as [val|] eqn:Hval.
    + rewrite (size_lookup_Some d "value" val Hval). cbn [negb mbind result_bind].
      rewrite bool_decide_eq_true_2 by (by eexists).
      cbn [negb default from_option id]. destruct val as [v| |]; [|done..].
      unfold py_in_set. cbn [py_hash mbind result_bind].
      by destruct (bool_decide (py_key v ∈ _unknown_values self)).
    + destruct (negb (size d =? 0)%nat); cbn [mbind result_bind]; [|done].
      by rewrite bool_decide_eq_false_2 by (by intros [??]).
Qed.

Lemma for_each_fetch self (l : list string) ret :
  Forall (λ oid, loop_raises (looked_up (request "GET" (lookup_url self oid))) =
                 None) l →
  ∃ ret',
    for_each l (fetch_step request self) ret = Ok ret' ∧
    ret_devices ret' = ret_devices ret ∧
    ret_meta ret' = ret_meta ret ∧
    (∀ oid, ret_oids ret' !! oid =
            if decide (oid ∈ l)
            then Some (recorded_value self
                         (looked_up (request "GET" (lookup_url self oid))))
            else ret_oids ret !! oid) ∧
    (∀ oid, ret_units ret' !! oid =
            if decide (oid ∈ l)
            then match recorded_unit
                         (looked_up (request "GET" (lookup_url self oid))) with
                 | Some u => Some u
                 | None => ret_units ret !! oid
                 end
            else ret_units ret !! oid).
Proof.
  intros Hall. revert ret. induction Hall as [|x l Hx Hall IH]; intros ret.
  - exists ret. split_and!; try done; intros oid;
      by rewrite decide_False by (by intros ?%elem_of_nil).
  - cbn [for_each]. rewrite fetch_step_outcome. cbv zeta. rewrite Hx.
    cbn [mbind result_bind].
    match goal with |- context [for_each l _ ?r] => destruct (IH r)
      as (ret' & Hrun & Hd & Hm & Ho & Hu) end.
    exists ret'. split_and!; [done..| |]; intros oid.
    + rewrite Ho. cbn [ret_oids].
      destruct (decide (oid ∈ l)) as [Hin|Hin].
      * by rewrite decide_True by (by apply elem_of_cons; right).
      * destruct (decide (oid = x)) as [->|Hne].
        -- rewrite decide_True by (by apply elem_of_cons; left).
           by rewrite lookup_insert_eq.
        -- rewrite decide_False by (by intros [?|?]%elem_of_cons).
           by rewrite lookup_insert_ne.
    + rewrite Hu. cbn [ret_units].
      destruct (decide (oid = x)) as [->|Hne].
      * rewrite (decide_True (P := x ∈ x :: l)) by (by apply elem_of_cons; left).
        destruct (recorded_unit _) as [u|]; [|by case_decide].
        rewrite lookup_insert_eq. by case_decide.
      * assert (∀ u : gmap string json,
                  match recorded_unit
                          (looked_up (request "GET" (lookup_url self x))) with
                  | Some v => <[x := v]> u
                  | None => u
                  end !! oid = u !! oid) as ->.
        { intros u. destruct (recorded_unit _); [|done].
          by rewrite lookup_insert_ne. }
        destruct (decide (oid ∈ l)) as [Hin|Hin].
        -- by rewrite decide_True by (by apply elem_of_cons; right).
        -- by rewrite decide_False by (by intros [?|?]%elem_of_cons).
Qed.

(** The loop raises exactly the exception of the first OID whose reply it
    cannot read. *)
Lemma for_each_fetch_raises self (l : list string) ret (e : exn) :
  for_each l (fetch_step request self) ret = Raise e ↔
  ∃ (l1 : list string) (oid : string) (l2 : list string),
    l = (l1 ++ oid :: l2)%list ∧
    Forall (λ oid', loop_raises (looked_up (request "GET" (lookup_url self oid'))) =
                    None) l1 ∧
    loop_raises (looked_up (request "GET" (lookup_url self oid))) = Some e.
Proof.
  revert ret. induction l as [|x l IH]; intros ret.
  - split; [done|]. intros (l1 & oid & l2 & Hl & _). by destruct l1.
  - cbn [for_each]. rewrite fetch_step_outcome. cbv zeta.
    destruct (loop_raises (looked_up (request "GET" (lookup_url self x))))
      as [e'|] eqn:Hx; cbn [mbind result_bind].
    + split.
      * intros [= <-]. by exists [], x, l.
      * intros (l1 & oid & l2 & Hl & Hall & Hoid).
        destruct l1 as [|y l1]; cbn in Hl; injection Hl as <- ->.
        -- congruence.
        -- apply Forall_cons in Hall as [Hy _]. congruence.
    + rewrite IH. split.
      * intros (l1 & oid & l2 & -> & Hall & Hoid).
        exists (x :: l1), oid, l2. split_and!; [done| |done].
        by apply Forall_cons.
      * intros (l1 & oid & l2 & Hl & Hall & Hoid).
        destruct l1 as [|y l1]; cbn in Hl; injection Hl as <- ->.
        -- congruence.
        -- apply Forall_cons in Hall as [_ Hall]. by exists l1, oid, l2.
Qed.

Lemma for_each_fetch_returns self (l : list string) ret ret' :
  for_each l (fetch_step request self) ret = Ok ret' →
  Forall (λ oid, loop_raises (looked_up (request "GET" (lookup_url self oid))) =
                 None) l.
Proof.
  revert ret. induction l as [|x l IH]; intros ret; [done|].
  cbn [for_each]. rewrite fetch_step_outcome. cbv zeta.
  destruct (loop_raises (looked_up (request "GET" (lookup_url self x))))
    as [e'|] eqn:Hx; cbn [mbind result_bind]; [done|].
  intros Hrun. apply Forall_cons. split; [done|]. by eapply IH.
Qed.

Lemma elem_of_sorted (s : gset string) oid : oid ∈ sorted s ↔ oid ∈ s.
Proof.
  unfold sorted. by rewrite merge_sort_Permutation, elem_of_elements.
Qed.

Lemma replies_accepted_sorted self :
  replies_accepted request self ↔
  Forall (λ oid, loop_raises
                   (looked_up (request "GET" (lookup_url (rebuild self) oid))) =
                 None)
         (sorted (_oids_to_fetch (rebuild self))).
Proof.
  unfold replies_accepted. rewrite Forall_forall.
  assert (∀ oid, lookup_url (rebuild self) oid = lookup_url self oid) as Hurl
    by (intros; unfold lookup_url; by rewrite rebuild_extend).
  split; intros H oid Hin.
  - rewrite Hurl. by apply H, elem_of_sorted.
  - rewrite <- Hurl. by apply H, elem_of_sorted.
Qed.

(** [fetch_all] returns only its own rebuilt client, and only when every
    reply is accepted. *)
Lemma fetch_all_returns self snap self' :
  fetch_all request self = Ok (snap, self') →
  replies_accepted request self ∧ self' = rebuild self.
Proof.
  unfold fetch_all.
  destruct (for_each _ _ _) as [r|e] eqn:Hrun; cbn [mbind result_bind]; [|done].
  intros [= <- <-]. split; [|done].
  apply replies_accepted_sorted. by eapply for_each_fetch_returns.
Qed.

(** [fetch_all] as a whole, when every reply is accepted. *)
Lemma fetch_all_ok self :
  replies_accepted request self →
  ∃ snap,
    fetch_all request self = Ok (snap, rebuild self) ∧
    ret_devices snap = devices (rebuild self) ∧
    ret_meta snap =
      {[ "eco_default_duration_minutes" :=
           PInt (eco_default_duration_minutes self) ]} ∧
    (∀ oid, ret_oids snap !! oid =
            if decide (oid ∈ _oids_to_fetch (rebuild self))
            then Some (recorded_value self
                         (looked_up (request "GET" (lookup_url self oid))))
            else None) ∧
    (∀ oid, ret_units snap !! oid =
            if decide (oid ∈ _oids_to_fetch (rebuild self))
            then recorded_unit (looked_up (request "GET" (lookup_url self oid)))
            else None).
Proof.
  intros Hacc%replies_accepted_sorted. unfold fetch_all.
  match goal with |- context [for_each ?l ?f ?r] =>
    destruct (for_each_fetch (rebuild self) l r Hacc)
      as (snap & Hrun & Hd & Hm & Ho & Hu) end.
  exists snap. rewrite Hrun. cbn [mbind result_bind].
  assert (∀ oid, lookup_url (rebuild self) oid = lookup_url self oid) as Hurl
    by (intros; unfold lookup_url; by rewrite rebuild_extend).
  assert (∀ js, recorded_value (rebuild self) js = recorded_value self js) as Hval
    by (intros; unfold recorded_value; by rewrite rebuild_extend).
  split_and!; [done| done | | |].
  - rewrite Hm. by rewrite rebuild_extend.
  - intros oid. rewrite Ho. cbn [ret_oids]. rewrite lookup_empty.
    destruct (decide (oid ∈ _oids_to_fetch (rebuild self))) as [Hin|Hin].
    + rewrite decide_True by (by apply elem_of_sorted).
      by rewrite Hurl, Hval.
    + by rewrite decide_False by (by rewrite elem_of_sorted).
  - intros oid. rewrite Hu. cbn [ret_units]. rewrite lookup_empty.
    destruct (decide (oid ∈ _oids_to_fetch (rebuild self))) as [Hin|Hin].
    + rewrite decide_True by (by apply elem_of_sorted).
      rewrite Hurl. by destruct (recorded_unit _).
    + by rewrite decide_False by (by rewrite elem_of_sorted).
Qed.

(** What a snapshot that [fetch_all] returned holds. *)
Lemma fetch_all_snapshot self snap self' :
  fetch_all request self = Ok (snap, self') →
  self' = rebuild self ∧
  replies_accepted request self ∧
  ret_devices snap = devices (rebuild self) ∧
  ret_meta snap =
    {[ "eco_default_duration_minutes" :=
         PInt (eco_default_duration_minutes self) ]} ∧
  (∀ oid, ret_oids snap !! oid =
          if decide (oid ∈ _oids_to_fetch (rebuild self))
          then Some (recorded_value self
                       (looked_up (request "GET" (lookup_url self oid))))
          else None) ∧
  (∀ oid, ret_units snap !! oid =
          if decide (oid ∈ _oids_to_fetch (rebuild self))
          then recorded_unit (looked_up (request "GET" (lookup_url self oid)))
          else None).
Proof.
  intros Hrun. destruct (fetch_all_returns self snap self' Hrun) as [Hacc ->].
  destruct (fetch_all_ok self Hacc) as (snap0 & Hrun0 & Hd & Hm & Ho & Hu).
  rewrite Hrun0 in Hrun. injection Hrun as <-. by split_and!.
Qed.

Lemma dom_oids_snapshot self snap :
  (∀ oid, ret_oids snap !! oid =
          if decide (oid ∈ _oids_to_fetch (rebuild self))
          then Some (recorded_value self
                       (looked_up (request "GET" (lookup_url self oid))))
          else None) →
  dom (ret_oids snap) = _oids_to_fetch (rebuild self).
Proof.
  intros Ho. apply set_eq. intros oid.
  rewrite elem_of_dom, Ho. case_decide; [|by split; [intros [??]|]].
  split; [done|by eexists].
Qed.

Lemma fetch_all_dom self :
  replies_accepted request self →
  ∃ snap,
    fetch_all request self = Ok (snap, rebuild self) ∧
    dom (ret_oids snap) = _oids_to_fetch (rebuild self).
Proof.
  intros Hacc. destruct (fetch_all_ok self Hacc) as (snap & Hrun & _ & _ & Ho & _).
  exists snap. split; [done|]. by apply dom_oids_snapshot.
Qed.

(** [fetch_all] raises exactly when some reply is not accepted, and then
    what the loop raises on such a reply. *)
Lemma fetch_all_raises self (e : exn) :
  fetch_all request self = Raise e →
  ∃ oid, oid ∈ _oids_to_fetch (rebuild self) ∧
         loop_raises (looked_up (request "GET" (lookup_url self oid))) = Some e.
Proof.
  unfold fetch_all.
  destruct (for_each _ _ _) as [r|e'] eqn:Hrun; cbn [mbind result_bind]; [done|].
  intros [= ->].
  apply for_each_fetch_raises in Hrun as (l1 & oid & l2 & Hl & _ & Hoid).
  exists oid. split.
  - apply elem_of_sorted. rewrite Hl. apply elem_of_app. right. by left.
  - assert (lookup_url (rebuild self) oid = lookup_url self oid) as <-
      by (unfold lookup_url; by rewrite rebuild_extend).
    done.
Qed.

End fetch.

Section accepted_replies.

Implicit Types (self : client) (js : json).

Lemma scalar_object_accepted js : scalar_object js → loop_raises js = None.
Proof.
  destruct js as [v|l|d]; cbn; [done..|]. intros Hd.
  destruct (d !! "value") as [val|] eqn:Hval; [|done].
  specialize (Hd "value" val Hval). by destruct val.
Qed.

(** Replies that are objects with scalar fields, or failures, are accepted. *)
Lemma replies_accepted_typed (request : string → string → result json) self :
  (∀ method url js, request method url = Ok js → scalar_object js) →
  replies_accepted request self.
Proof.
  intros Hty oid _.
  destruct (request "GET" (lookup_url self oid)) as [js|e] eqn:Hreq; [|done].
  cbn. by apply scalar_object_accepted, (Hty "GET" (lookup_url self oid)).
Qed.

Lemma replies_accepted_outage (fail : string → string → exn) self :
  replies_accepted (λ method url, Raise (fail method url)) self.
Proof. by apply replies_accepted_typed. Qed.

Lemma scalar_object_value_unit (v u : pyval) :
  scalar_object (JDict {[ "value" := JVal v; "unit" := JVal u ]}).
Proof.
  cbn. apply map_Forall_insert_2; [done|]. by apply map_Forall_singleton.
Qed.

Lemma request1_accepted self : replies_accepted request1 self.
Proof.
  apply replies_accepted_typed. intros method url js. unfold request1.
  repeat case_match; try done; intros [= <-]; apply scalar_object_value_unit.
Qed.

Lemma request2_accepted self : replies_accepted request2 self.
Proof.
  apply replies_accepted_typed. intros method url js. unfold request2.
  repeat case_match; try done; intros [= <-]; apply scalar_object_value_unit.
Qed.

Lemma mode_oid_required : "/1/6/0/0" ∈ _oids_to_fetch (rebuild client1).
Proof. apply (bool_decide_unpack _). vm_compute. exact I. Qed.

Lemma room_oid_required : "/1/6/0/3" ∈ _oids_to_fetch (rebuild client1).
Proof. apply (bool_decide_unpack _). vm_compute. exact I. Qed.

Lemma default_unknown_values (s : string) :
  PStr s ∈ _unknown_values client1 ↔ s = "-.-" ∨ s = "".
Proof. unfold client1, client_of. cbn. set_solver. Qed.

End accepted_replies.

(** C1 (counterexample to the claim as written). The device answers the
    lookup of a required OID with an object whose value is a list; the
    lookup itself succeeds, and [fetch_all] raises [TypeError] instead of
    returning a snapshot. *)
Lemma list_value_aborts_cycle :
  "/1/6/0/0" ∈ _oids_to_fetch (rebuild client1) ∧
  request_list_value "GET" (lookup_url client1 "/1/6/0/0") =
    Ok (JDict {[ "value" := JList [JVal (PInt 1)] ]}) ∧
  fetch_all request_list_value client1 = Raise TypeError ∧
  ∀ (snap : snapshot) (self' : client),
    fetch_all request_list_value client1 ≠ Ok (snap, self').
Proof.
  assert (fetch_all request_list_value client1 = Raise TypeError) as Hrun
    by (vm_compute; reflexivity).
  split_and!.
  - exact mode_oid_required.
  - reflexivity.
  - exact Hrun.
  - intros snap self'. rewrite Hrun. discriminate.
Qed.

(** C1 (as amended). For every client (hence every specification) and every
    behaviour of the transport: when no reply to the lookup of a required
    OID is a number other than zero, [True], a string or a list that holds
    "value", or an object whose value is a list or an object, [fetch_all]
    returns a snapshot and does not raise; this holds in particular when
    every lookup raises or returns an object with scalar fields. A returned
    snapshot carries the device list built from the specification (the
    descriptors of every circuit, then those of every module), the keys of
    its [oids] mapping are exactly the required OIDs, and a required OID
    whose lookup raised is mapped to [None]. When [fetch_all] raises, it
    raises what the loop raises on the reply to some required OID. When
    every request raises, every required OID is mapped to [None], no unit is
    recorded and the device list is the same fully built list. *)
Theorem fetch_all_returns_complete_snapshot
    (request : string → string → result json) (self : client) :
  let required :=
    ⋃ (hk_required <$> circuits self) ∪ ⋃ (module_required <$> modules self) in
  let built :=
    (concat (hk_devices (host self) <$> circuits self) ++
     concat (module_devices (host self) <$> modules self))%list in
  ((∀ oid : string,
      oid ∈ required →
      loop_raises (looked_up (request "GET" (lookup_url self oid))) = None) ↔
   ∃ snap : snapshot, fetch_all request self = Ok (snap, rebuild self)) ∧
  ((∀ (method url : string) (js : json),
      request method url = Ok js → scalar_object js) →
   ∃ snap : snapshot, fetch_all request self = Ok (snap, rebuild self)) ∧
  (∀ (snap : snapshot) (self' : client),
     fetch_all request self = Ok (snap, self') →
     self' = rebuild self ∧
     devices self' = built ∧
     _oids_to_fetch self' = required ∧
     ret_devices snap = built ∧
     dom (ret_oids snap) = required ∧
     ∀ (oid : string) (e : exn),
       oid ∈ required →
       request "GET" (lookup_url self oid) = Raise e →
       ret_oids snap !! oid = Some (JVal PNone)) ∧
  (∀ e : exn,
     fetch_all request self = Raise e →
     ∃ oid : string,
       oid ∈ required ∧
       loop_raises (looked_up (request "GET" (lookup_url self oid))) = Some e) ∧
  (∀ fail : string → string → exn,
     ∃ snap : snapshot,
       fetch_all (λ method url, Raise (fail method url)) self =
         Ok (snap, rebuild self) ∧
       ret_devices snap = built ∧
       dom (ret_oids snap) = required ∧
       (∀ oid : string,
          ret_oids snap !! oid =
          if decide (oid ∈ required) then Some (JVal PNone) else None) ∧
       ret_units snap = ∅) ∧
  (∀ hk : heating_circuit,
     hk ∈ circuits self → climate_device (host self) hk ∈ built).
Proof.
  cbv zeta. rewrite <- (oids_rebuild self), <- (devices_rebuild self).
  split_and!.
  - split.
    + intros Hacc. destruct (fetch_all_ok request self Hacc) as (snap & Hrun & _).
      by exists snap.
    + intros [snap Hrun]. by apply fetch_all_returns in Hrun as [Hacc _].
  - intros Hty.
    destruct (fetch_all_ok request self (replies_accepted_typed request self Hty))
      as (snap & Hrun & _).
    by exists snap.
  - intros snap self' Hrun.
    destruct (fetch_all_snapshot request self snap self' Hrun)
      as (-> & _ & Hd & _ & Ho & _).
    split_and!; [done..|by apply (dom_oids_snapshot request)|].
    intros oid e Hin Hfail. by rewrite Ho, decide_True, Hfail.
  - apply fetch_all_raises.
  - intros fail.
    destruct (fetch_all_ok (λ method url, Raise (fail method url)) self
                (replies_accepted_outage fail self))
      as (snap & Hrun & Hd & _ & Ho & Hu).
    exists snap. split_and!; [done..| | |].
    + by apply (dom_oids_snapshot (λ method url, Raise (fail method url))).
    + intros oid. rewrite Ho. by case_decide.
    + apply map_eq. intros oid. rewrite Hu, lookup_empty. by case_decide.
  - intros hk Hhk. rewrite devices_rebuild. apply elem_of_app. left.
    apply list_elem_of_In, in_concat. exists (hk_devices (host self) hk). split.
    + apply list_elem_of_In, list_elem_of_fmap. by exists hk.
    + apply list_elem_of_In, elem_of_cons. by left.
Qed.

Lemma fetch_all_returns_complete_snapshot_witness :
  ∃ snap : snapshot,
    fetch_all request1 client1 = Ok (snap, rebuild client1) ∧
    climate_device "10.0.0.5" hk1 ∈ ret_devices snap ∧
    "/1/6/0/3" ∈ dom (ret_oids snap).
Proof.
  pose proof (fetch_all_returns_complete_snapshot request1 client1)
    as (_ & Hty & Hsnap & _ & _ & Hclimate).
  destruct Hty as [snap Hrun].
  { intros method url js. unfold request1.
    repeat case_match; try done; intros [= <-]; apply scalar_object_value_unit. }
  exists snap. split; [exact Hrun|].
  destruct (Hsnap snap (rebuild client1) Hrun) as (_ & _ & Hreq & -> & -> & _).
  split.
  - apply Hclimate. apply list_elem_of_here.
  - rewrite <- Hreq. exact room_oid_required.
Defined.

(** C3 (counterexample to the claim as written). The device answers the
    lookup of a required OID with an object that has a value field and a
    unit; the value, an object itself, is none of the unknown values. Neither
    the value nor the unit is recorded: [fetch_all] raises [TypeError]. *)
Lemma object_value_not_recorded :
  "/1/6/0/3" ∈ _oids_to_fetch (rebuild client1) ∧
  request_object_value "GET" (lookup_url client1 "/1/6/0/3") =
    Ok (JDict {[ "value" := JDict {[ "raw" := JVal (PStr "21.5") ]};
                 "unit" := JVal (PStr "°C") ]}) ∧
  fetch_all request_object_value client1 = Raise TypeError.
Proof.
  split_and!.
  - exact room_oid_required.
  - reflexivity.
  - vm_compute. reflexivity.
Qed.

(** C3 (as amended). After a [fetch_all] that returned, for every required
    OID: when the lookup raised, or the reply is no object, or it is an
    object without a value field, the OID is mapped to [None] in [oids] and
    has no entry in [units]; otherwise the value is a scalar and the reply's
    unit is recorded in [units] ([None] when the reply has none), and [oids]
    maps the OID to [None] when the value is one of the unknown values of
    the client (where [True] counts as 1 and [False] as 0, as in any Python
    set) and to the value as returned when it is not. A reply whose value is
    a list or an object makes the pass of the loop, and with it
    [fetch_all], raise [TypeError]. *)
Theorem fetch_classification
    (request : string → string → result json) (self : client) (oid : string) :
  (∀ (snap : snapshot) (self' : client),
     fetch_all request self = Ok (snap, self') →
     oid ∈ _oids_to_fetch self' →
     match request "GET" (lookup_url self oid) with
     | Raise _ =>
         ret_oids snap !! oid = Some (JVal PNone) ∧ ret_units snap !! oid = None
     | Ok (JDict d) =>
         match d !! "value" with
         | None =>
             ret_oids snap !! oid = Some (JVal PNone) ∧
             ret_units snap !! oid = None
         | Some val =>
             ∃ v : pyval,
               val = JVal v ∧
               ret_units snap !! oid = Some (default (JVal PNone) (d !! "unit")) ∧
               (py_key v ∈ _unknown_values self →
                ret_oids snap !! oid = Some (JVal PNone)) ∧
               (py_key v ∉ _unknown_values self →
                ret_oids snap !! oid = Some val)
         end
     | Ok _ =>
         ret_oids snap !! oid = Some (JVal PNone) ∧ ret_units snap !! oid = None
     end) ∧
  (∀ (ret : snapshot) (d : gmap string json) (val : json),
     request "GET" (lookup_url self oid) = Ok (JDict d) →
     d !! "value" = Some val →
     (∀ v : pyval, val ≠ JVal v) →
     fetch_step request self ret oid = Raise TypeError ∧
     (oid ∈ _oids_to_fetch (rebuild self) →
      ∃ e : exn, fetch_all request self = Raise e)) ∧
  (∀ v : pyval,
     py_key v = match v with
                | PBool true => PInt 1
                | PBool false => PInt 0
                | _ => v
                end).
Proof.
  split_and!.
  - intros snap self' Hrun Hin.
    destruct (fetch_all_snapshot request self snap self' Hrun)
      as (-> & Hacc & _ & _ & Ho & Hu).
    specialize (Hacc oid Hin). rewrite Ho, Hu, !decide_True by done.
    destruct (request "GET" (lookup_url self oid)) as [js|e]; [|done].
    cbn [looked_up] in *. destruct js as [v|l|d]; [done..|].
    cbn [recorded_value recorded_unit loop_raises] in *.
    destruct (d !! "value") as [val|]; [|done].
    destruct val as [v| |]; [|done..]. exists v.
    split_and!; [done..| |]; intros Hv.
    + by rewrite bool_decide_eq_true_2.
    + by rewrite bool_decide_eq_false_2.
  - intros ret d val Hreq Hval Hnot.
    assert (loop_raises (looked_up (request "GET" (lookup_url self oid))) =
            Some TypeError) as Hraise.
    { rewrite Hreq. cbn. rewrite Hval. destruct val as [v| |]; [|done..].
      by destruct (Hnot v). }
    split.
    + rewrite fetch_step_outcome. cbv zeta. by rewrite Hraise.
    + intros Hin. destruct (fetch_all request self) as [[snap self']|e] eqn:Hrun;
        [|by exists e].
      apply fetch_all_returns in Hrun as [Hacc _].
      specialize (Hacc oid Hin). congruence.
  - by intros [|[]| |].
Qed.

Lemma fetch_classification_witness :
  ∃ snap : snapshot,
    fetch_all request1 client1 = Ok (snap, rebuild client1) ∧
    ret_oids snap !! "/1/6/0/0" = Some (JVal (PStr "0")) ∧
    ret_units snap !! "/1/6/0/0" = Some (JVal PNone) ∧
    ret_oids snap !! "/1/6/0/3" = Some (JVal PNone) ∧
    ret_units snap !! "/1/6/0/3" = Some (JVal (PStr "C")).
Proof.
  destruct (fetch_all_ok request1 client1 (request1_accepted client1))
    as (snap & Hrun & _).
  exists snap. split; [exact Hrun|].
  destruct (proj1 (fetch_classification request1 client1 "/1/6/0/0")
              snap (rebuild client1) Hrun mode_oid_required)
    as (v0 & Hv0 & Hu0 & _ & Ho0).
  destruct (proj1 (fetch_classification request1 client1 "/1/6/0/3")
              snap (rebuild client1) Hrun room_oid_required)
    as (v3 & Hv3 & Hu3 & Ho3 & _).
  injection Hv0 as <-. injection Hv3 as <-.
  split_and!.
  - apply Ho0. cbn [py_key]. rewrite default_unknown_values.
    intros [?|?]; discriminate.
  - exact Hu0.
  - apply Ho3. cbn [py_key]. apply default_unknown_values. by left.
  - exact Hu3.
Defined.

(** C10. After [fetch_all], a required OID is a key of [units] exactly when
    its lookup returned a reply that has a value field; the entry is then
    the reply's unit, [None] when the reply has no unit, whether or not the
    value is one of the unknown values. An OID whose lookup raised, or whose
    reply has no value field (an object without it, or no object at all),
    has no entry in [units]. *)
Theorem units_key_iff_value_returned
    (request : string → string → result json) (self self' : client)
    (snap : snapshot) (oid : string) :
  fetch_all request self = Ok (snap, self') →
  oid ∈ _oids_to_fetch self' →
  (oid ∈ dom (ret_units snap) ↔
   ∃ d : gmap string json,
     request "GET" (lookup_url self oid) = Ok (JDict d) ∧ is_Some (d !! "value")) ∧
  (∀ d : gmap string json,
     request "GET" (lookup_url self oid) = Ok (JDict d) → is_Some (d !! "value") →
     ret_units snap !! oid = Some (default (JVal PNone) (d !! "unit")) ∧
     (d !! "unit" = None → ret_units snap !! oid = Some (JVal PNone))) ∧
  (∀ e : exn,
     request "GET" (lookup_url self oid) = Raise e → ret_units snap !! oid = None) ∧
  (∀ d : gmap string json,
     request "GET" (lookup_url self oid) = Ok (JDict d) → d !! "value" = None →
     ret_units snap !! oid = None) ∧
  (∀ js : json,
     request "GET" (lookup_url self oid) = Ok js →
     (∀ d : gmap string json, js ≠ JDict d) →
     ret_units snap !! oid = None).
Proof.
  intros Hrun Hin.
  destruct (fetch_all_snapshot request self snap self' Hrun)
    as (-> & _ & _ & _ & _ & Hu).
  rewrite elem_of_dom, !Hu, !decide_True by done.
  split_and!.
  - destruct (request "GET" (lookup_url self oid)) as [js|e];
      cbn [looked_up recorded_unit].
    + destruct js as [v|l|d];
        try (split; [by intros [??]|by intros (d' & [= ?] & _)]).
      cbn [recorded_unit]. destruct (d !! "value") as [val|] eqn:Hval.
      * split; [intros _; exists d; by rewrite Hval|intros _; by eexists].
      * split; [by intros [??]|]. intros (d' & [= <-] & [v Hv]). congruence.
    + split; [by intros [??]|]. by intros (d' & ? & _).
  - intros d Hjs [val Hval]. rewrite Hjs. cbn [looked_up recorded_unit].
    rewrite Hval. split; [done|]. intros Hunit. by rewrite Hunit.
  - intros e He. by rewrite He.
  - intros d Hjs Hval. rewrite Hjs. cbn [looked_up recorded_unit]. by rewrite Hval.
  - intros js Hjs Hno. rewrite Hjs. cbn [looked_up].
    destruct js as [v|l|d]; [done..|]. by destruct (Hno d).
Qed.

Lemma units_key_iff_value_returned_witness :
  ∃ snap : snapshot,
    fetch_all request1 client1 = Ok (snap, rebuild client1) ∧
    ("/1/6/0/3" ∈ dom (ret_units snap) ↔
     ∃ d : gmap string json,
       request1 "GET" (lookup_url client1 "/1/6/0/3") = Ok (JDict d) ∧
       is_Some (d !! "value")).
Proof.
  destruct (fetch_all_ok request1 client1 (request1_accepted client1))
    as (snap & Hrun & _).
  exists snap. split; [exact Hrun|].
  exact (proj1 (units_key_iff_value_returned request1 client1 (rebuild client1)
                  snap "/1/6/0/3" Hrun room_oid_required)).
Defined.

(* ===================================================================== *)
(** * Two runs *)
(* ===================================================================== *)

(** One circuit with a mode and a room sensor, both answered. *)
Example end_to_end :
  ∃ (snap : snapshot) (parent child : device) (m : gmap string pyval),
    fetch_all request2 client1 = Ok (snap, rebuild client1) ∧
    ret_devices snap = [parent; child] ∧
    has_type "climate" parent ∧
    parent !! "oids_map" = Some (DMap m) ∧
    m !! "mode" = Some (PStr "/1/6/0/0") ∧
    has_type "temperature" child ∧
    child !! "oid" = Some (DVal (PStr "/1/6/0/3")) ∧
    ret_oids snap !! "/1/6/0/3" = Some (JVal (PStr "21.5")) ∧
    ret_units snap !! "/1/6/0/3" = Some (JVal (PStr "°C")).
Proof.
  destruct (fetch_all_ok request2 client1 (request2_accepted client1))
    as (snap & Hrun & Hd & _ & Ho & Hu).
  destruct (climate_device_fields "10.0.0.5" hk1) as (Ht & _ & _ & m & Hm & Hk).
  pose (child := child_device "10.0.0.5" "temperature" (hk_dev_id "10.0.0.5" hk1)
                   "HK1" "HK1 Room Temperature" "/1/6/0/3").
  exists snap, (climate_device "10.0.0.5" hk1), child, m.
  split_and!.
  - exact Hrun.
  - rewrite Hd, devices_rebuild. reflexivity.
  - exact Ht.
  - exact Hm.
  - rewrite Hk. vm_compute. reflexivity.
  - apply child_device_shape.
  - apply child_device_shape.
  - rewrite Ho, decide_True by exact room_oid_required.
    change (looked_up (request2 "GET" (lookup_url client1 "/1/6/0/3")))
      with (JDict {[ "value" := JVal (PStr "21.5"); "unit" := JVal (PStr "°C") ]}).
    unfold recorded_value. rewrite lookup_insert_eq.
    rewrite bool_decide_eq_false_2; [done|]. cbn [py_key].
    rewrite default_unknown_values. intros [?|?]; discriminate.
  - rewrite Hu, decide_True by exact room_oid_required. reflexivity.
Qed.

(** Two circuits with five OIDs while every request times out. *)
Example total_outage :
  ∃ snap : snapshot,
    fetch_all (λ _ _, Raise TimeoutError) client2 = Ok (snap, rebuild client2) ∧
    size (ret_oids snap) = 5%nat ∧
    map_Forall (λ _ v, v = JVal PNone) (ret_oids snap) ∧
    length (ret_devices snap) = 5%nat.
Proof.
  destruct (fetch_all_ok (λ _ _, Raise TimeoutError) client2
              (replies_accepted_outage (λ _ _, TimeoutError) client2))
    as (snap & Hrun & Hd & _ & Ho & _).
  pose proof (dom_oids_snapshot (λ _ _, Raise TimeoutError) client2 snap Ho)
    as Hdom.
  exists snap. split_and!.
  - exact Hrun.
  - rewrite <- size_dom, Hdom. vm_compute. reflexivity.
  - intros k v Hkv. rewrite Ho in Hkv. case_decide; [|done].
    cbn in Hkv. congruence.
  - rewrite Hd, devices_rebuild. vm_compute. reflexivity.
Qed.

(* ===================================================================== *)
(** * Further properties: construction *)
(* ===================================================================== *)

Section construction.

Variable py : interpreter.

(** The hashes of a list: all of them when every element is a scalar, and
    [TypeError] otherwise. *)
Lemma py_hashes_outcome (l : list json) :
  match py_hashes l with
  | Ok ks =>
      (∀ x : json, x ∈ l → ∃ v : pyval, x = JVal v) ∧
      ∀ k : pyval, k ∈ ks ↔ ∃ v : pyval, JVal v ∈ l ∧ py_key v = k
  | Raise e =>
      e = TypeError ∧ ∃ x : json, x ∈ l ∧ ∀ v : pyval, x ≠ JVal v
  end.
Proof.
  induction l as [|x l IH]; cbn [py_hashes].
  - split.
    + by intros x ?%elem_of_nil.
    + intros k. split; [by intros ?%elem_of_nil|].
      by intros (v & ?%elem_of_nil & _).
  - destruct x as [v|l'|d]; cbn [py_hash mbind result_bind].
    + destruct (py_hashes l) as [ks|e]; cbn [mbind result_bind].
      * destruct IH as [IH1 IH2]. split.
        -- intros x [->|Hx]%elem_of_cons; [by exists v|by apply IH1].
        -- intros k. rewrite elem_of_cons, IH2. split.
           ++ intros [->|(v' & Hin & Hk)].
              ** exists v. split; [by left|done].
              ** exists v'. split; [by right|done].
           ++ intros (v' & [[= ->]|Hin]%elem_of_cons & Hk); [by left|].
              right. by exists v'.
      * destruct IH as (-> & x & Hx & Hnot). split; [done|].
        exists x. split; [by right|done].
    + split; [done|]. exists (JList l'). split; [by left|done].
    + split; [done|]. exists (JDict d). split; [by left|done].
Qed.

(** [set(xs)] raises exactly on a scalar that is no string and on a list
    that holds a list or a dictionary, and then [TypeError]. *)
Lemma py_set_raises (xs : json) (e : exn) :
  py_set xs = Raise e ↔
  e = TypeError ∧
  match xs with
  | JVal (PStr _) | JDict _ => False
  | JVal _ => True
  | JList l => ∃ x : json, x ∈ l ∧ ∀ v : pyval, x ≠ JVal v
  end.
Proof.
  destruct xs as [[|b|z|s]|l|d]; cbn [py_set];
    try (split; [by intros [= <-]|by intros [-> _]]);
    try (split; [done|by intros [_ []]]).
  pose proof (py_hashes_outcome l) as Hl.
  destruct (py_hashes l) as [ks|e']; cbn [mbind result_bind].
  - destruct Hl as [Hl _]. split; [done|]. intros (_ & x & Hx & Hnot).
    destruct (Hl x Hx) as [v ->]. by destruct (Hnot v).
  - destruct Hl as (-> & Hl). split; [by intros [= <-]|by intros [-> _]].
Qed.

(** What a set built by [set(xs)] holds. *)
Lemma py_set_elements (xs : json) (u : gset pyval) (k : pyval) :
  py_set xs = Ok u →
  k ∈ u ↔
  match xs with
  | JList l => ∃ v : pyval, JVal v ∈ l ∧ py_key v = k
  | JVal (PStr s) => ∃ ch : string, ch ∈ chars s ∧ k = PStr ch
  | JDict d => ∃ key : string, is_Some (d !! key) ∧ k = PStr key
  | JVal _ => False
  end.
Proof.
  destruct xs as [[|b|z|s]|l|d]; cbn [py_set]; try done.
  - intros [= <-]. rewrite elem_of_list_to_set, list_elem_of_fmap. naive_solver.
  - pose proof (py_hashes_outcome l) as Hl.
    destruct (py_hashes l) as [ks|e']; cbn [mbind result_bind]; [|done].
    intros [= <-]. rewrite elem_of_list_to_set. apply Hl.
  - intros [= <-]. rewrite elem_of_map. setoid_rewrite elem_of_dom. naive_solver.
Qed.

(** [int(x)] raises [TypeError] on [None], a list and a dictionary, and
    [ValueError] on a text that denotes no number. *)
Lemma int_of_json_raises (x : json) (e : exn) :
  int_of_json py x = Raise e ↔
  match x with
  | JVal PNone | JList _ | JDict _ => e = TypeError
  | JVal (PStr s) => e = ValueError ∧ int_of_str py s = None
  | JVal _ => False
  end.
Proof.
  destruct x as [[|b|z|s]|l|d]; cbn [int_of_json py_int];
    try (split; [by intros [= <-]|by intros ->]); try done.
  destruct (int_of_str py s) as [n|]; [by split; [|intros [_ ?]]|].
  split; [by intros [= <-]|by intros [-> _]].
Qed.

Lemma init_outcome (h pw : string) (spec : specification) :
  __init__ py h pw (Ok (DocObject spec)) =
  (unknown ← py_set (default (JList [JVal (PStr "-.-"); JVal (PStr "")])
                             (spec_unknown_values spec));
   eco ← int_of_json py (default (JVal (PInt 180))
                                 (spec_eco_default_duration_minutes spec));
   Ok {| host := h; password := pw; _spec := spec;
         _unknown_values := unknown;
         _eco_default_duration_minutes := eco;
         _oids_to_fetch := ∅; devices := [] |}).
Proof. done. Qed.

End construction.

(** X1. Construction raises in exactly three cases: spec.json was loaded
    and is no object ([AttributeError]); it is an object whose
    [unknown_values] cannot be made a set, being a scalar other than a
    string or a list that holds a list or an object ([TypeError]); or the
    set was built and [eco_default_duration_minutes] is present but [int()]
    rejects it ([TypeError] for null, a list or an object, [ValueError] for
    a text that denotes no number). A failed load never makes construction
    fail. When construction succeeds the client starts with no devices and
    no OIDs to fetch. *)
Theorem init_raises_exactly_when
    (py : interpreter) (h pw : string) (file : result document) :
  (∀ e : exn,
     __init__ py h pw file = Raise e ↔
     match file with
     | Raise _ => False
     | Ok (DocList _) | Ok (DocScalar _) => e = AttributeError
     | Ok (DocObject spec) =>
         match spec_unknown_values spec with
         | Some (JVal (PStr _)) | Some (JDict _) | None => False
         | Some (JVal _) => e = TypeError
         | Some (JList l) =>
             e = TypeError ∧ ∃ x : json, x ∈ l ∧ ∀ v : pyval, x ≠ JVal v
         end ∨
         (∀ e' : exn,
            py_set (default (JList [JVal (PStr "-.-"); JVal (PStr "")])
                            (spec_unknown_values spec)) ≠ Raise e') ∧
         match spec_eco_default_duration_minutes spec with
         | Some (JVal PNone) | Some (JList _) | Some (JDict _) => e = TypeError
         | Some (JVal (PStr s)) => e = ValueError ∧ int_of_str py s = None
         | Some (JVal _) | None => False
         end
     end) ∧
  (∀ c : client,
     __init__ py h pw file = Ok c →
     host c = h ∧ password c = pw ∧ devices c = [] ∧ _oids_to_fetch c = ∅) ∧
  __init__ py h pw (Ok (DocList [])) = Raise AttributeError ∧
  __init__ py h pw (Ok (DocObject (spec_with (Some (JVal PNone)) None))) =
    Raise TypeError ∧
  __init__ py h pw
    (Ok (DocObject (spec_with (Some (JList [JList []])) None))) =
    Raise TypeError ∧
  __init__ py h pw (Ok (DocObject (spec_with None (Some (JVal PNone))))) =
    Raise TypeError ∧
  __init__ py h pw
    (Ok (DocObject (spec_with None (Some (JVal (PStr "soon")))))) =
    Raise ValueError ∧
  ∃ c : client,
    __init__ py h pw
      (Ok (DocObject (spec_with (Some (JList [JVal (PStr "n/a")]))
                                (Some (JVal (PStr "90")))))) = Ok c ∧
    eco_default_duration_minutes c = 90%Z.
Proof.
  split_and!.
  - intros e. destruct file as [[spec|l|v]|e0];
      [|by split; [intros [= <-]|intros ->]..|by split].
    rewrite init_outcome.
    destruct (py_set (default _ (spec_unknown_values spec))) as [u|e1] eqn:Hset;
      cbn [mbind result_bind].
    + assert (match spec_unknown_values spec with
              | Some (JVal (PStr _)) | Some (JDict _) | None => False
              | Some (JVal _) => e = TypeError
              | Some (JList l) =>
                  e = TypeError ∧ ∃ x : json, x ∈ l ∧ ∀ v : pyval, x ≠ JVal v
              end → False) as Hno.
      { destruct (spec_unknown_values spec) as [xs|]; [|done].
        cbn [default from_option id] in Hset. intros Hbad.
        assert (py_set xs = Raise e) as Habs.
        { apply py_set_raises. by destruct xs as [[]| |]. }
        congruence. }
      destruct (int_of_json py (default _ (spec_eco_default_duration_minutes spec)))
        as [z|e2] eqn:Hint; cbn [mbind result_bind].
      * split; [done|]. intros [Hbad|[_ Hbad]]; [done|].
        destruct (spec_eco_default_duration_minutes spec) as [x|]; [|done].
        cbn [default from_option id] in Hint.
        assert (int_of_json py x = Raise e) as Habs.
        { apply int_of_json_raises. by destruct x as [[]| |]. }
        congruence.
      * destruct (spec_eco_default_duration_minutes spec) as [x|];
          cbn [default from_option id] in Hint; [|done].
        split.
        -- intros [= <-]. right. split; [done|].
           apply int_of_json_raises in Hint. by destruct x as [[]| |].
        -- intros [Hbad|[_ Hbad]]; [done|].
           assert (int_of_json py x = Raise e) as Habs.
           { apply int_of_json_raises. by destruct x as [[]| |]. }
           congruence.
    + split.
      * intros [= <-]. left.
        destruct (spec_unknown_values spec) as [xs|]; [|done].
        cbn [default from_option id] in Hset.
        apply py_set_raises in Hset as [-> Hset]. by destruct xs as [[]| |].
      * intros [Hbad|[Hok _]]; [|by destruct (Hok e1)].
        destruct (spec_unknown_values spec) as [xs|]; [|done].
        cbn [default from_option id] in Hset.
        assert (py_set xs = Raise e) as Habs.
        { apply py_set_raises. by destruct xs as [[]| |]. }
        congruence.
  - intros c. destruct file as [[spec|l|v]|e0]; [| done | done |].
    + rewrite init_outcome. destruct (py_set _) as [u|]; [|done].
      cbn [mbind result_bind]. destruct (int_of_json py _) as [z|]; [|done].
      by intros [= <-].
    + by intros [= <-].
  - done.
  - done.
  - done.
  - done.
  - rewrite init_outcome. cbn.
    assert (int_of_str py "soon" = None) as -> by (by destruct py). done.
  - eexists. rewrite init_outcome. cbn.
    assert (int_of_str py "90" = Some 90%Z) as -> by (by destruct py).
    split; reflexivity.
Qed.

Lemma init_raises_exactly_when_witness :
  __init__ py_sample "10.0.0.5" "pw"
    (Ok (DocObject (spec_with (Some (JList [JVal (PStr "-.-"); JDict ∅])) None))) =
  Raise TypeError.
Proof.
  apply (proj1 (init_raises_exactly_when py_sample "10.0.0.5" "pw"
           (Ok (DocObject
                  (spec_with (Some (JList [JVal (PStr "-.-"); JDict ∅])) None)))))
  . left. split; [reflexivity|].
  exists (JDict ∅). split; [|discriminate]. right. left.
Defined.

(* ===================================================================== *)
(** * Further properties: the climate platform *)
(* ===================================================================== *)

Section climate_modes.

Lemma from_raw_cases (raw : pyval) :
  map_mode_from_raw raw = HVAC_AUTO ∧ py_str raw = "0" ∨
  map_mode_from_raw raw = HVAC_OFF ∧ py_str raw = "2" ∨
  map_mode_from_raw raw = HVAC_HEAT ∧ py_str raw ≠ "0" ∧ py_str raw ≠ "2".
Proof.
  unfold map_mode_from_raw.
  destruct (String.eqb_spec (py_str raw) "0"); [by left|].
  destruct (String.eqb_spec (py_str raw) "2"); [by right; left|].
  by right; right.
Qed.

End climate_modes.

(** X2. Writing a mode and reading it back gives the same mode for the three
    modes the entity offers (auto, heat, off); every other mode is written
    as "1" and therefore read back as heat. *)
Theorem mode_write_then_read (mode : HVACMode) :
  map_mode_from_raw (PStr (map_mode_to_raw mode)) =
  match mode with
  | HVAC_AUTO => HVAC_AUTO
  | HVAC_OFF => HVAC_OFF
  | _ => HVAC_HEAT
  end.
Proof. by destruct mode. Qed.

(** X3. Reading a raw value and writing the mode back gives "0", "1" or "2";
    it gives back the raw value's text exactly when that text is "0", "1" or
    "2", and "1" otherwise. The reading depends only on the text of the raw
    value, so the number 0 and the string "0" read alike, and the mode read
    is unchanged by the trip. *)
Theorem mode_read_then_write (raw : pyval) :
  map_mode_to_raw (map_mode_from_raw raw) =
    (if decide (py_str raw = "0" ∨ py_str raw = "1" ∨ py_str raw = "2")
     then py_str raw else "1") ∧
  map_mode_from_raw (PStr (py_str raw)) = map_mode_from_raw raw ∧
  map_mode_from_raw (PStr (map_mode_to_raw (map_mode_from_raw raw))) =
    map_mode_from_raw raw.
Proof.
  split_and!.
  - destruct (from_raw_cases raw) as [[-> Hs]|[[-> Hs]|[-> [H0 H2]]]]; cbn.
    + rewrite decide_True by auto. done.
    + rewrite decide_True by auto. done.
    + case_decide as Hd; [|done]. by destruct Hd as [?|[?|?]].
  - done.
  - by destruct (from_raw_cases raw) as [[-> _]|[[-> _]|[-> _]]].
Qed.

Section runtime_minutes.

Variable py : interpreter.

Lemma positive_int_Some (v : pyval) (z : Z) :
  positive_int py v = Some z ↔ py_int py v = Ok z ∧ (0 < z)%Z.
Proof.
  unfold positive_int. destruct (py_int py v) as [y|e]; cbn; [|naive_solver].
  destruct (Z.ltb_spec 0 y); naive_solver lia.
Qed.

Lemma positive_int_PInt (z : Z) :
  positive_int py (PInt z) = if (0 <? z)%Z then Some z else None.
Proof. done. Qed.

End runtime_minutes.

(** X4. Whatever the coordinator holds (no client, a client whose duration
    is zero or negative, no data, a meta entry of any value), the runtime
    eco/comfort duration is a positive number of minutes. *)
Theorem runtime_minutes_positive (py : interpreter) (coordinator : coordinator) :
  (0 < _get_runtime_eco_minutes py coordinator)%Z.
Proof.
  unfold _get_runtime_eco_minutes.
  destruct (httpClient coordinator) as [http|].
  - destruct (positive_int py (PInt _)) as [z|] eqn:Hz.
    + by apply positive_int_Some in Hz as [_ ?].
    + destruct (positive_int py (default _ _)) as [z|] eqn:Hz'; [|done].
      by apply positive_int_Some in Hz' as [_ ?].
  - destruct (positive_int py (default _ _)) as [z|] eqn:Hz'; [|done].
    by apply positive_int_Some in Hz' as [_ ?].
Qed.

(** X5. After a fetch cycle that returned, the runtime duration read
    through the client and the one read from the snapshot's meta alone
    agree: both are the client's duration when that is positive and the
    fallback of 180 minutes otherwise; without client and data it is 180. *)
Theorem runtime_minutes_after_fetch
    (py : interpreter) (request : string → string → result json)
    (self self' : client) (snap : snapshot) :
  fetch_all request self = Ok (snap, self') →
  _get_runtime_eco_minutes py {| httpClient := Some self'; data := Some snap |} =
    (if (0 <? eco_default_duration_minutes self)%Z
     then eco_default_duration_minutes self else 180%Z) ∧
  _get_runtime_eco_minutes py {| httpClient := None; data := Some snap |} =
    (if (0 <? eco_default_duration_minutes self)%Z
     then eco_default_duration_minutes self else 180%Z) ∧
  _get_runtime_eco_minutes py {| httpClient := Some self'; data := None |} =
    (if (0 <? eco_default_duration_minutes self)%Z
     then eco_default_duration_minutes self else 180%Z) ∧
  _get_runtime_eco_minutes py {| httpClient := None; data := None |} = 180%Z.
Proof.
  intros Hrun.
  destruct (fetch_all_snapshot request self snap self' Hrun)
    as (-> & _ & _ & Hm & _).
  assert (eco_default_duration_minutes (rebuild self) =
          eco_default_duration_minutes self) as He by (by rewrite rebuild_extend).
  unfold _get_runtime_eco_minutes. cbn [httpClient data].
  rewrite Hm, lookup_singleton_eq, lookup_empty, He. cbn [from_option id].
  rewrite !positive_int_PInt.
  by destruct (0 <? eco_default_duration_minutes self)%Z.
Qed.

Lemma runtime_minutes_after_fetch_witness :
  ∃ snap : snapshot,
    fetch_all request1 client1 = Ok (snap, rebuild client1) ∧
    _get_runtime_eco_minutes py_sample
      {| httpClient := None; data := Some snap |} = 180%Z.
Proof.
  destruct (fetch_all_ok request1 client1 (request1_accepted client1))
    as (snap & Hrun & _).
  exists snap. split; [exact Hrun|].
  exact (proj1 (proj2 (runtime_minutes_after_fetch py_sample request1 client1
                         (rebuild client1) snap Hrun))).
Defined.

Section climate_entities.

Implicit Types (self : client) (hk : heating_circuit) (d : device).

Lemma climate_devices_of_rebuild self :
  filter (has_type "climate") (devices (rebuild self)) =
  climate_device (host self) <$> circuits self.
Proof.
  rewrite devices_rebuild, filter_app, !filter_concat_fmap.
  assert (concat ((λ m, filter (has_type "climate")
                          (module_devices (host self) m)) <$> modules self) = [])
    as ->.
  { induction (modules self) as [|m ms IH]; [done|].
    by rewrite fmap_cons, concat_cons, filter_climate_module, IH. }
  rewrite app_nil_r.
  induction (circuits self) as [|hk hks IH]; [done|].
  by rewrite !fmap_cons, concat_cons, filter_climate_hk, IH.
Qed.

Lemma setup_entities_filter (l : list device) (acc : list entity) :
  foldl (λ entities device,
           if decide (device !! "type" = Some (DVal (PStr "climate")))
           then (entities ++
                 [WindhagerClimate device; WindhagerClimateNoBias device])%list
           else entities) acc l =
  (acc ++ concat (entity_pair <$> filter (has_type "climate") l))%list.
Proof.
  revert acc. induction l as [|d l IH]; intros acc; cbn [foldl].
  - by rewrite app_nil_r.
  - rewrite IH. unfold has_type at 2. rewrite filter_cons.
    destruct (decide (d !! "type" = Some (DVal (PStr "climate")))); [|done].
    by rewrite fmap_cons, concat_cons, <- app_assoc.
Qed.

Lemma climate_device_ids (h : string) hk :
  let d := climate_device h hk in
  d !! "id" = Some (DVal (PStr (hk_dev_id h hk))) ∧
  d !! "device_id" = Some (DVal (PStr (hk_dev_id h hk))) ∧
  d !! "device_name" = Some (DVal (PStr (hk_name hk))) ∧
  d !! "prefix" = Some (DVal (PStr (prefix_of (hk_node hk) (hk_fct hk)))).
Proof. unfold climate_device, hk_dev_id. split_and!; by simplify_map_eq. Qed.

Lemma str_length_app (a b : string) :
  String.length (a +:+ b) = (String.length a + String.length b)%nat.
Proof.
  induction a as [|c a IH]; [done|].
  change (String c a +:+ b) with (String c (a +:+ b)). cbn. by rewrite IH.
Qed.

Lemma recorded_value_present self (js : json) :
  is_none (recorded_value self js) = false ↔
  ∃ (d : gmap string json) (val : pyval),
    js = JDict d ∧ d !! "value" = Some (JVal val) ∧ val ≠ PNone ∧
    py_key val ∉ _unknown_values self.
Proof.
  destruct js as [v|l|d]; cbn [recorded_value is_none];
    try (split; [done|by intros (d' & val & ? & _)]).
  destruct (d !! "value") as [[val| |]|] eqn:Hval; cbn [is_none];
    try (split; [done|]; intros (d' & val' & [= <-] & ? & _); congruence).
  destruct (decide (py_key val ∈ _unknown_values self)) as [Hunk|Hunk].
  - rewrite bool_decide_eq_true_2 by done. cbn [is_none]. split; [done|].
    intros (d' & val' & [= <-] & ? & _ & ?). congruence.
  - rewrite bool_decide_eq_false_2 by done. split.
    + intros Hnone. exists d, val. split_and!; try done. by intros ->.
    + intros (d' & val' & [= <-] & ? & Hne & _).
      assert (val' = val) as -> by congruence. by destruct val.
Qed.

Lemma slugify_prefix_nonempty (h : string) (node fct : pyval) :
  slugify (h +:+ prefix_of node fct) ≠ "".
Proof.
  rewrite slugify_str_map. intros Heq.
  apply (f_equal String.length) in Heq. rewrite str_map_length in Heq.
  unfold prefix_of in Heq. rewrite !str_length_app in Heq.
  cbn in Heq. lia.
Qed.

End climate_entities.

(** X6. On the snapshot a fetch cycle returned the platform creates, in the
    order of the specification, the standard entity and the no-bias entity
    of each heating circuit's parent descriptor and nothing else: two
    entities per circuit, none for child sensors or module sensors. It hands
    them to [async_add_entities] unless the specification has no circuit, in
    which case it does not call it. *)
Theorem two_entities_per_circuit
    (request : string → string → result json) (self self' : client)
    (snap : snapshot) :
  fetch_all request self = Ok (snap, self') →
  setup_entities snap =
    concat ((λ hk, entity_pair (climate_device (host self) hk)) <$> circuits self) ∧
  length (setup_entities snap) = (2 * length (circuits self))%nat ∧
  async_setup_entry snap =
    match circuits self with
    | [] => None
    | _ => Some (setup_entities snap)
    end.
Proof.
  intros Hrun.
  destruct (fetch_all_snapshot request self snap self' Hrun)
    as (-> & _ & Hd & _).
  assert (setup_entities snap =
          concat ((λ hk, entity_pair (climate_device (host self) hk))
                    <$> circuits self)) as Hent.
  { unfold setup_entities.
    rewrite setup_entities_filter, Hd, climate_devices_of_rebuild.
    by rewrite app_nil_l, <- list_fmap_compose. }
  split_and!.
  - done.
  - rewrite Hent. clear Hent. induction (circuits self) as [|hk hks IH]; [done|].
    rewrite fmap_cons, concat_cons, length_app, IH. cbn [entity_pair length]. lia.
  - unfold async_setup_entry. rewrite Hent.
    by destruct (circuits self).
Qed.

Lemma two_entities_per_circuit_witness :
  ∃ snap : snapshot,
    fetch_all request1 client1 = Ok (snap, rebuild client1) ∧
    length (setup_entities snap) = 2%nat.
Proof.
  destruct (fetch_all_ok request1 client1 (request1_accepted client1))
    as (snap & Hrun & _).
  exists snap. split; [exact Hrun|].
  exact (proj1 (proj2 (two_entities_per_circuit request1 client1
                         (rebuild client1) snap Hrun))).
Defined.

(** X7. The entity built from a circuit's parent descriptor has as unique id
    and as device identifier the slug of host and "/1/<node>/<fct>", which is
    never empty; it is named after the circuit, or "Windhager Climate" when
    the circuit's name is empty; and its OID table is the descriptor's
    [oids_map], with the six control roles and nothing else. *)
Theorem climate_entity_identity (h : string) (hk : heating_circuit) :
  let e := climate_base_init (climate_device h hk) in
  _attr_unique_id e = PStr (slugify (h +:+ prefix_of (hk_node hk) (hk_fct hk))) ∧
  info_identifier e = _attr_unique_id e ∧
  _attr_unique_id e ≠ PStr "" ∧
  _attr_name e = (if String.eqb (hk_name hk) "" then PStr "Windhager Climate"
                  else PStr (hk_name hk)) ∧
  _prefix e = DVal (PStr (prefix_of (hk_node hk) (hk_fct hk))) ∧
  ∀ k : string,
    _oids e !! k = if decide (k ∈ control_roles)
                   then Some (oids_get (hk_oids hk) k) else None.
Proof.
  cbv zeta.
  destruct (climate_device_ids h hk) as (Hid & Hdid & Hdn & Hp).
  destruct (climate_device_fields h hk) as (_ & Hn & _ & m & Hm & Hk).
  unfold climate_base_init, dev_get. cbn [_attr_unique_id info_identifier
    _attr_name _prefix _oids]. rewrite Hid, Hdid, Hdn, Hn, Hp, Hm.
  split_and!.
  - done.
  - unfold py_or. by destruct (truthy _).
  - intros [= Heq]. by apply slugify_prefix_nonempty in Heq.
  - unfold py_or. cbn [truthy].
    destruct (String.eqb (hk_name hk) "") eqn:Hname; cbn [negb truthy];
      by rewrite Hname.
  - done.
  - done.
Qed.

(** X8. After a fetch cycle that returned, the entity of a circuit is
    available exactly when the circuit declares a room_temp OID, that OID
    was fetched, and its lookup returned an object whose value is neither
    null nor one of the unknown values of the client. A non-empty room_temp
    OID of a circuit of the specification is always fetched. Before the
    first snapshot the entity is unavailable. *)
Theorem climate_available_iff
    (request : string → string → result json) (self self' : client)
    (snap : snapshot) (hk : heating_circuit) :
  fetch_all request self = Ok (snap, self') →
  let e := climate_base_init (climate_device (host self) hk) in
  (available e (Some snap) = true ↔
   ∃ (oid : string) (d : gmap string json) (val : pyval),
     hk_oids hk !! "room_temp" = Some oid ∧
     oid ∈ _oids_to_fetch self' ∧
     request "GET" (lookup_url self oid) = Ok (JDict d) ∧
     d !! "value" = Some (JVal val) ∧ val ≠ PNone ∧
     py_key val ∉ _unknown_values self) ∧
  (∀ oid : string,
     hk ∈ circuits self → hk_oids hk !! "room_temp" = Some oid → oid ≠ "" →
     oid ∈ _oids_to_fetch self') ∧
  available e None = false.
Proof.
  intros Hrun.
  destruct (fetch_all_snapshot request self snap self' Hrun)
    as (-> & Hacc & _ & _ & Ho & _). cbv zeta.
  destruct (climate_device_fields (host self) hk) as (_ & _ & _ & m & Hm & Hk).
  assert (∀ data, available (climate_base_init (climate_device (host self) hk)) data =
            negb (is_none
                    (oids_lookup match data with Some d => ret_oids d | None => ∅ end
                       (oids_get (hk_oids hk) "room_temp")))) as Hav.
  { intros data'. unfold available, climate_base_init. cbn [_oids]. rewrite Hm.
    unfold dict_get. rewrite Hk, decide_True by set_solver. done. }
  split_and!.
  - rewrite Hav, negb_true_iff.
    unfold oids_get. destruct (hk_oids hk !! "room_temp") as [oid|] eqn:Hrt;
      cbn [from_option oids_lookup].
    + rewrite Ho. destruct (decide (oid ∈ _oids_to_fetch (rebuild self))) as [Hin|Hin].
      * cbn [from_option id]. rewrite recorded_value_present. split.
        -- intros (d & val & Hjs & Hval & Hne & Hunk).
           exists oid, d, val. split_and!; try done.
           destruct (request "GET" (lookup_url self oid)) as [js|e]; cbn in Hjs;
             congruence.
        -- intros (o & d & val & [= <-] & _ & Hreq & Hval & Hne & Hunk).
           exists d, val. by rewrite Hreq.
      * cbn [from_option id is_none]. split; [done|].
        intros (o & d' & v' & H1 & H2 & _). by simplify_eq.
    + cbn [is_none]. split; [done|]. by intros (o & d' & v' & ? & _).
  - intros oid Hhk Hrt Hne. rewrite oids_rebuild. apply elem_of_union. left.
    apply elem_of_union_list. exists (hk_required hk). split.
    + apply list_elem_of_fmap. by exists hk.
    + unfold hk_required. apply elem_of_declared_oids. exists "room_temp".
      split; [set_solver|]. by apply declared_oid_Some.
  - rewrite Hav. unfold oids_get.
    destruct (hk_oids hk !! "room_temp"); cbn [from_option oids_lookup];
      by rewrite ?lookup_empty.
Qed.

Lemma climate_available_iff_witness :
  ∃ snap : snapshot,
    fetch_all request2 client1 = Ok (snap, rebuild client1) ∧
    available (climate_base_init (climate_device "10.0.0.5" hk1)) (Some snap) =
      true.
Proof.
  destruct (fetch_all_ok request2 client1 (request2_accepted client1))
    as (snap & Hrun & _).
  exists snap. split; [exact Hrun|].
  apply (proj1 (climate_available_iff request2 client1 (rebuild client1) snap hk1
                  Hrun)).
  exists "/1/6/0/3",
    {[ "value" := JVal (PStr "21.5"); "unit" := JVal (PStr "°C") ]},
    (PStr "21.5").
  split_and!.
  - reflexivity.
  - exact room_oid_required.
  - reflexivity.
  - reflexivity.
  - discriminate.
  - cbn [py_key]. rewrite default_unknown_values. intros [?|?]; discriminate.
Defined.

(* ===================================================================== *)
(** * Further properties: the connection *)
(* ===================================================================== *)

Section connection.

Variable user : string.
Variable tr : transport.

Implicit Types (w : net) (st : connected) (s : net * connected) (o : op).

Lemma with_conn_same st c : _conn st = c → with_conn st c = st.
Proof. intros <-. by destruct st. Qed.

Lemma ensure_connected w st c :
  _conn st = Some c → _ensure_session user w st = (w, c).
Proof. unfold _ensure_session. by intros ->. Qed.

Lemma ensure_unconnected w st :
  _conn st = None →
  _ensure_session user w st =
  ((open_session w).1, (next_session w, fresh_auth user w st)).
Proof. unfold _ensure_session. by intros ->. Qed.

(** The connection effect of a request (a lookup or an update). *)
Lemma request_effect w st :
  let s' := ((_ensure_session user w st).1,
             with_conn st (Some (_ensure_session user w st).2)) in
  match _conn st with
  | Some c => s' = (w, st)
  | None =>
      s' = ((open_session w).1,
            with_conn st (Some (next_session w, fresh_auth user w st)))
  end.
Proof.
  cbv zeta. destruct (_conn st) as [c|] eqn:Hc.
  - rewrite (ensure_connected w st c) by done. cbn. by rewrite with_conn_same.
  - by rewrite ensure_unconnected.
Qed.

Lemma lookup_connected_effect w st oid :
  (_lookup_connected user tr w st oid).2 =
  ((_ensure_session user w st).1,
   with_conn st (Some (_ensure_session user w st).2)).
Proof. unfold _lookup_connected. by destruct (_ensure_session user w st). Qed.

Lemma update_effect w st oid value :
  (update user tr w st oid value).2 =
  ((_ensure_session user w st).1,
   with_conn st (Some (_ensure_session user w st).2)).
Proof. unfold update. by destruct (_ensure_session user w st). Qed.

Lemma conn_ok_request s :
  conn_ok user s →
  conn_ok user ((_ensure_session user s.1 s.2).1,
                with_conn s.2 (Some (_ensure_session user s.1 s.2).2)).
Proof.
  destruct s as [w st]. cbn [fst snd]. intros Hok.
  pose proof (request_effect w st) as Heff. cbv zeta in Heff.
  unfold conn_ok in Hok. cbn [fst snd] in Hok.
  destruct (_conn st) as [c|] eqn:Hc.
  - rewrite Heff. unfold conn_ok. cbn [fst snd]. by rewrite Hc.
  - rewrite Heff. unfold conn_ok, open_session, fresh_auth. cbn.
    rewrite Hok. split_and!; [set_solver|lia|done].
Qed.

Lemma conn_ok_close s : conn_ok user s → conn_ok user (close s.1 s.2).
Proof.
  destruct s as [w st]. unfold conn_ok, close. cbn [fst snd].
  destruct (_conn st) as [[n a]|] eqn:Hc; cbn; [|by rewrite Hc].
  intros (Hopen & _). rewrite Hopen. set_solver.
Qed.

Lemma conn_ok_run_op s o : conn_ok user s → conn_ok user (run_op user tr s o).
Proof.
  intros Hok. destruct o as [oid|oid value|]; unfold run_op.
  - rewrite lookup_connected_effect. by apply conn_ok_request.
  - rewrite update_effect. by apply conn_ok_request.
  - by apply conn_ok_close.
Qed.

Lemma client_run_op s o : self_client (run_op user tr s o).2 = self_client s.2.
Proof.
  destruct s as [w st]. destruct o as [oid|oid value|]; unfold run_op; cbn [fst snd].
  - by rewrite lookup_connected_effect.
  - by rewrite update_effect.
  - unfold close. by destruct (_conn st) as [[??]|].
Qed.

(** The library's session counter never decreases. *)
Lemma next_session_run_op s o :
  (next_session s.1 ≤ next_session (run_op user tr s o).1)%nat.
Proof.
  destruct s as [w st]. destruct o as [oid|oid value|]; unfold run_op; cbn [fst snd].
  - rewrite lookup_connected_effect. unfold _ensure_session.
    destruct (_conn st); cbn; lia.
  - rewrite update_effect. unfold _ensure_session.
    destruct (_conn st); cbn; lia.
  - unfold close. destruct (_conn st) as [[??]|]; cbn; lia.
Qed.

Lemma next_session_run s (ops : list op) :
  (next_session s.1 ≤ next_session (foldl (run_op user tr) s ops).1)%nat.
Proof.
  revert s. induction ops as [|o ops IH]; intros s; cbn [foldl]; [lia|].
  etrans; [apply (next_session_run_op s o)|apply IH].
Qed.

Lemma conn_ok_run_from s (ops : list op) :
  conn_ok user s → conn_ok user (foldl (run_op user tr) s ops).
Proof.
  revert s. induction ops as [|o ops IH]; intros s Hok; [done|].
  cbn [foldl]. by apply IH, conn_ok_run_op.
Qed.

(** A session held at any point of a history is numbered below the counter
    at the end of the history. *)
Lemma held_session_below_counter (c : client) (ops : list op) (k n : nat)
    (a : auth) :
  _conn (foldl (run_op user tr) (net0, unconnected c) (take k ops)).2 = Some (n, a) →
  (n < next_session (foldl (run_op user tr) (net0, unconnected c) ops).1)%nat.
Proof.
  intros Hheld.
  assert (conn_ok user (foldl (run_op user tr) (net0, unconnected c) (take k ops)))
    as Hok by (by apply conn_ok_run_from).
  unfold conn_ok in Hok. rewrite Hheld in Hok. destruct Hok as (_ & Hlt & _).
  assert (foldl (run_op user tr) (net0, unconnected c) ops =
          foldl (run_op user tr)
                (foldl (run_op user tr) (net0, unconnected c) (take k ops))
                (drop k ops)) as -> by (by rewrite <- foldl_app, take_drop).
  eapply Nat.lt_le_trans; [exact Hlt|apply next_session_run].
Qed.

Lemma conn_ok_run (c : client) (ops : list op) :
  conn_ok user (foldl (run_op user tr) (net0, unconnected c) ops) ∧
  self_client (foldl (run_op user tr) (net0, unconnected c) ops).2 = c.
Proof.
  induction ops as [|o ops IH] using rev_ind; [done|].
  rewrite foldl_app. cbn [foldl]. destruct IH as [IH1 IH2]. split.
  - by apply conn_ok_run_op.
  - by rewrite client_run_op.
Qed.

End connection.

(** X9. Starting from a freshly constructed client, after any sequence of
    lookups, updates and closes (whatever the transport does): the library
    has no open session when the client holds none, and otherwise exactly
    one, the one the client holds; the auth object is bound to that session,
    to the default user name and to the client's password; and the client
    itself is unchanged. So no session is ever leaked. *)
Theorem at_most_one_open_session
    (user : string) (tr : transport) (c : client) (ops : list op) :
  let s := foldl (run_op user tr) (net0, unconnected c) ops in
  conn_ok user s ∧
  self_client s.2 = c ∧
  (size (open_sessions s.1) ≤ 1)%nat ∧
  (_conn s.2 = None ↔ open_sessions s.1 = ∅).
Proof.
  cbv zeta. destruct (conn_ok_run user tr c ops) as [Hok Hc].
  split_and!; [done..| |].
  - unfold conn_ok in Hok. destruct (_conn _) as [[n a]|].
    + destruct Hok as (-> & _). rewrite size_singleton. lia.
    + rewrite Hok, size_empty. lia.
  - unfold conn_ok in Hok. destruct (_conn _) as [[n a]|].
    + destruct Hok as (-> & _). split; [done|]. intros H%(f_equal size).
      by rewrite size_singleton, size_empty in H.
    + done.
Qed.

(** X10. [close] leaves the client without session and auth; on a client
    that holds no session it changes nothing, so closing twice is the same
    as closing once; on a client that holds one it closes exactly that
    session in the library. *)
Theorem close_is_safe_and_idempotent (w : net) (st : connected) :
  _conn (close w st).2 = None ∧
  self_client (close w st).2 = self_client st ∧
  close (close w st).1 (close w st).2 = close w st ∧
  match _conn st with
  | None => close w st = (w, st)
  | Some (n, a) =>
      open_sessions (close w st).1 = open_sessions w ∖ {[ n ]} ∧
      (n ∉ open_sessions (close w st).1) ∧
      next_session (close w st).1 = next_session w
  end.
Proof.
  unfold close. destruct (_conn st) as [[n a]|] eqn:Hc; cbn.
  - split_and!; try done. set_solver.
  - rewrite Hc. by split_and!.
Qed.

(** X11. A lookup and an update have the same effect on the connection.
    When the client holds a session they reuse it: nothing is opened and
    nothing changes. When it holds none they open one session, numbered by
    the library's counter, and bind a new auth object to it. *)
Theorem request_reuses_or_opens
    (user : string) (tr : transport) (w : net) (st : connected)
    (oid : string) (value : pyval) :
  (update user tr w st oid value).2 = (_lookup_connected user tr w st oid).2 ∧
  match _conn st with
  | Some c => (_lookup_connected user tr w st oid).2 = (w, st)
  | None =>
      (_lookup_connected user tr w st oid).2 =
        ({| next_session := S (next_session w);
            open_sessions := {[ next_session w ]} ∪ open_sessions w |},
         with_conn st (Some (next_session w, fresh_auth user w st)))
  end.
Proof.
  rewrite update_effect, lookup_connected_effect. split; [done|].
  pose proof (request_effect user w st) as Heff. cbv zeta in Heff.
  by destruct (_conn st).
Qed.

(** X12. After any history, closing and then issuing a lookup leaves the
    client with a session that was never used before: its number is the
    library's counter at that point, which is above the number of every
    session the client held at any earlier point of the history (after any
    prefix of the calls, the whole history included); and it is the only
    open session. *)
Theorem reconnect_after_close_is_fresh
    (user : string) (tr : transport) (c : client) (ops : list op) (oid : string) :
  let s := foldl (run_op user tr) (net0, unconnected c) ops in
  let s2 := run_op user tr (run_op user tr s OpClose) (OpLookup oid) in
  _conn s2.2 = Some (next_session s.1,
                     {| auth_username := user; auth_password := password c;
                        auth_session := next_session s.1 |}) ∧
  open_sessions s2.1 = {[ next_session s.1 ]} ∧
  ∀ (k n : nat) (a : auth),
    _conn (foldl (run_op user tr) (net0, unconnected c) (take k ops)).2 =
      Some (n, a) →
    (n < next_session s.1)%nat ∧ _session s2.2 ≠ Some n.
Proof.
  cbv zeta. destruct (conn_ok_run user tr c ops) as [Hok Hc].
  pose proof (held_session_below_counter user tr c ops) as Hheld.
  set (s := foldl (run_op user tr) (net0, unconnected c) ops) in *.
  pose proof (conn_ok_close user s Hok) as Hok1.
  destruct s as [w st]. cbn [fst snd] in *.
  assert (_conn (close w st).2 = None ∧
          next_session (close w st).1 = next_session w ∧
          self_client (close w st).2 = st.(self_client)) as (Hn & Hnext & Hcl).
  { unfold close. by destruct (_conn st) as [[??]|] eqn:E. }
  unfold run_op. cbn [fst snd]. rewrite !lookup_connected_effect.
  rewrite ensure_unconnected by done. cbn [fst snd].
  unfold conn_ok in Hok1. rewrite Hn in Hok1.
  split_and!.
  - cbn. unfold fresh_auth. by rewrite Hnext, Hcl, Hc.
  - cbn. rewrite Hok1, Hnext. set_solver.
  - intros k n a Hk. specialize (Hheld k n a Hk). split; [done|].
    unfold _session. cbn. intros [= Heq]. lia.
Qed.

Lemma reconnect_after_close_is_fresh_witness :
  (0 < next_session
         (foldl (run_op "USER" {| get_json := λ _ _ _, Raise TimeoutError;
                                  put_data := λ _ _ _ _, Ok () |})
                (net0, unconnected client1)
                [OpLookup "/1/6/0/0"; OpClose; OpLookup "/1/6/0/3"]).1)%nat.
Proof.
  apply (proj2 (proj2 (reconnect_after_close_is_fresh "USER"
           {| get_json := λ _ _ _, Raise TimeoutError;
              put_data := λ _ _ _ _, Ok () |}
           client1 [OpLookup "/1/6/0/0"; OpClose; OpLookup "/1/6/0/3"] "/1/6/0/0"))
         1%nat 0%nat
         {| auth_username := "USER"; auth_password := "pw"; auth_session := 0 |}).
  reflexivity.
Defined.

(** X13. [update] returns what the transport's PUT returns and raises what it
    raises, unchanged; [_lookup] under the same auth object turns every
    exception of the transport into [None]. Both use the auth object in
    place after [_ensure_session], and after either call the client holds a
    session, also when the request failed. *)
Theorem update_propagates_errors
    (user : string) (tr : transport) (w : net) (st : connected)
    (oid : string) (value : pyval) :
  let a := (_ensure_session user w st).2.2 in
  (update user tr w st oid value).1 =
    put_data tr a "PUT" (update_url (self_client st)) (update_payload oid value) ∧
  (_lookup_connected user tr w st oid).1 =
    Ok match get_json tr a "GET" (lookup_url (self_client st) oid) with
       | Ok js => js
       | Raise _ => JVal PNone
       end ∧
  is_Some (_conn (update user tr w st oid value).2.2) ∧
  is_Some (_conn (_lookup_connected user tr w st oid).2.2).
Proof.
  cbv zeta. rewrite update_effect, lookup_connected_effect.
  unfold update, _lookup_connected.
  destruct (_ensure_session user w st) as [w' [n a]]. cbn [fst snd].
  split_and!.
  - by destruct (put_data _ _ _ _ _).
  - by rewrite lookup_outcome.
  - by eexists.
  - by eexists.
Qed.

Section payload.

Lemma quote_free_cons (c : ascii) (s : string) :
  quote_free (String c s) ↔ c ≠ "034"%char ∧ quote_free s.
Proof.
  unfold quote_free. split.
  - intros H. split.
    + intros ->. by apply (H 0%nat).
    + intros i. apply (H (S i)).
  - intros [Hc Hs] [|i]; cbn; [congruence|apply Hs].
Qed.

Lemma split_at_quote (a a' r r' : string) :
  quote_free a → quote_free a' →
  a +:+ String "034" r = a' +:+ String "034" r' → a = a' ∧ r = r'.
Proof.
  revert a'. induction a as [|c a IH]; intros [|c' a'] Ha Ha' Heq.
  - by injection Heq as ->.
  - apply quote_free_cons in Ha' as [Hc _]. injection Heq as Hc' _. congruence.
  - apply quote_free_cons in Ha as [Hc _]. injection Heq as Hc' _. congruence.
  - apply quote_free_cons in Ha as [_ Ha].
    apply quote_free_cons in Ha' as [_ Ha'].
    injection Heq as -> Heq. destruct (IH a' Ha Ha' Heq) as [-> ->]. done.
Qed.

Lemma str_app_inv_tail (a b e : string) : a +:+ e = b +:+ e → a = b.
Proof.
  revert b. induction a as [|c a IH]; intros [|c' b] Heq.
  - done.
  - apply (f_equal String.length) in Heq.
    rewrite !str_length_app in Heq. cbn in Heq. lia.
  - apply (f_equal String.length) in Heq.
    rewrite !str_length_app in Heq. cbn in Heq. lia.
  - injection Heq as -> Heq. by rewrite (IH b Heq).
Qed.

End payload.

(** X14. When the OIDs contain no double quote, the body [update] sends
    determines the OID and the text of the value: two calls send the same
    body only if they have the same OID and values with the same text. The
    value may contain anything. *)
Theorem update_payload_unambiguous (oid oid' : string) (value value' : pyval) :
  quote_free oid → quote_free oid' →
  update_payload oid value = update_payload oid' value' →
  oid = oid' ∧ py_str value = py_str value'.
Proof.
  intros Hq Hq' Heq. unfold update_payload in Heq.
  do 6 apply String.app_inj in Heq.
  change (dq +:+ ?r) with (String "034" r) in Heq.
  apply split_at_quote in Heq as [-> Heq]; [|done..].
  split; [done|].
  do 6 apply String.app_inj in Heq.
  by apply str_app_inv_tail in Heq.
Qed.

Lemma update_payload_unambiguous_witness :
  "/1/6/0/0" = "/1/6/0/0" ∧ py_str (PInt 1) = py_str (PStr "1").
Proof.
  apply (update_payload_unambiguous "/1/6/0/0" "/1/6/0/0" (PInt 1) (PStr "1")).
  - intros i. do 8 (destruct i as [|i]; [discriminate|]). discriminate.
  - intros i. do 8 (destruct i as [|i]; [discriminate|]). discriminate.
  - reflexivity.
Defined.

Section connected_fetch.

Variable user : string.
Variable tr : transport.

(** On a client that holds a session the loop is the loop of [fetch_all]
    through the auth object of that session, and the connection stays. *)
Lemma fetch_loop_connected_held (self : client) (l : list string) (ret : snapshot)
    (w : net) (st : connected) (c : nat * auth) :
  _conn st = Some c →
  fetch_loop_connected user tr self l ret (w, st) =
  (for_each l (fetch_step (get_json tr c.2) self) ret, (w, st)).
Proof.
  intros Hc. revert ret. induction l as [|x l IH]; intros ret; [done|].
  cbn [fetch_loop_connected for_each fst snd].
  rewrite (ensure_connected user w st c Hc).
  rewrite (with_conn_same st) by done.
  destruct (fetch_step (get_json tr c.2) self ret x) as [r|e]; [|done].
  cbn [mbind result_bind]. apply IH.
Qed.

(** A loop of at least one pass leaves the client with the session and auth
    object of [_ensure_session], whether it returns or raises. *)
Lemma fetch_loop_connected_nonempty (self : client) (x : string) (l : list string)
    (ret : snapshot) (w : net) (st : connected) :
  fetch_loop_connected user tr self (x :: l) ret (w, st) =
  (for_each (x :: l)
     (fetch_step (get_json tr (_ensure_session user w st).2.2) self) ret,
   ((_ensure_session user w st).1,
    with_conn st (Some (_ensure_session user w st).2))).
Proof.
  cbn [fetch_loop_connected for_each fst snd].
  destruct (_ensure_session user w st) as [w1 c]. cbn [fst snd].
  destruct (fetch_step (get_json tr c.2) self ret x) as [r|e]; [|done].
  cbn [mbind result_bind]. by apply fetch_loop_connected_held.
Qed.

Lemma sorted_nil (s : gset string) : sorted s = [] ↔ s = ∅.
Proof.
  unfold sorted. split.
  - intros Hs. apply leibniz_equiv, elements_empty_iff, Permutation_nil_r.
    by rewrite <- (merge_sort_Permutation str_le), Hs.
  - intros ->. by rewrite elements_empty.
Qed.

End connected_fetch.

(** X15. A fetch cycle on the connected client returns the snapshot, or
    raises the exception, that [fetch_all] returns or raises when its
    requests go through the auth object in place after [_ensure_session].
    When the specification requires no OID at all, the cycle opens no
    session and leaves the connection as it was; otherwise the client holds
    a session afterwards, the one it held before or one newly opened, also
    when the cycle raised. *)
Theorem fetch_all_connected_refines
    (user : string) (tr : transport) (w : net) (st : connected) :
  let self := rebuild (self_client st) in
  let st' := {| self_client := self; _conn := _conn st |} in
  let c := (_ensure_session user w st').2 in
  fetch_all_connected user tr w st =
    (match fetch_all (get_json tr c.2) (self_client st) with
     | Ok (snap, _) => Ok snap
     | Raise e => Raise e
     end,
     if decide (_oids_to_fetch self = ∅) then (w, st')
     else ((_ensure_session user w st').1, with_conn st' (Some c))).
Proof.
  cbv zeta. unfold fetch_all, fetch_all_connected.
  destruct (sorted (_oids_to_fetch (rebuild (self_client st)))) as [|x l] eqn:Hs.
  - apply sorted_nil in Hs. by rewrite decide_True by done.
  - rewrite decide_False by (intros He; apply sorted_nil in He; congruence).
    rewrite fetch_loop_connected_nonempty.
    by destruct (for_each (x :: l) _ _) as [r|e].
Qed.

(* ===================================================================== *)
(** * Further properties: build and fetch *)
(* ===================================================================== *)

Section cycles.

Implicit Types (self : client) (hk : heating_circuit) (m : module_block).

Lemma rebuild_rebuild self : rebuild (rebuild self) = rebuild self.
Proof.
  rewrite (rebuild_extend (rebuild self)).
  rewrite (rebuild_extend self) at 4.
  unfold circuits, modules.
  by rewrite !rebuild_extend.
Qed.

Lemma rebuild_config self :
  host (rebuild self) = host self ∧
  password (rebuild self) = password self ∧
  _spec (rebuild self) = _spec self ∧
  _unknown_values (rebuild self) = _unknown_values self ∧
  eco_default_duration_minutes (rebuild self) = eco_default_duration_minutes self.
Proof. by rewrite rebuild_extend. Qed.

Lemma rebuild_after_setter self (minutes : Z) :
  devices (rebuild (set_eco minutes self)) = devices (rebuild self) ∧
  _oids_to_fetch (rebuild (set_eco minutes self)) = _oids_to_fetch (rebuild self).
Proof. by rewrite !devices_rebuild, !oids_rebuild. Qed.

Lemma child_device_ids (h typ dev_id name nice oid : string) :
  let d := child_device h typ dev_id name nice oid in
  d !! "id" = Some (DVal (PStr (slugify (h +:+ oid)))) ∧
  d !! "device_id" = Some (DVal (PStr dev_id)) ∧
  d !! "device_name" = Some (DVal (PStr name)).
Proof. unfold child_device. split_and!; by simplify_map_eq. Qed.

Lemma status_device_ids (h dev_id name nice oid : string) :
  let d := status_device h dev_id name nice oid in
  d !! "id" = Some (DVal (PStr (slugify (h +:+ oid)))) ∧
  d !! "device_id" = Some (DVal (PStr dev_id)) ∧
  d !! "device_name" = Some (DVal (PStr name)).
Proof. unfold status_device. split_and!; by simplify_map_eq. Qed.

End cycles.

(** X16. A fetch cycle starts from scratch: building twice gives what
    building once gives, whatever devices and OIDs an earlier cycle left, so
    the device list never grows from cycle to cycle; and a second cycle
    against the same device answers has the outcome of the first: the same
    snapshot, or the same exception. *)
Theorem cycles_do_not_accumulate
    (request : string → string → result json) (self : client)
    (ds : list device) (os : gset string) :
  rebuild (rebuild self) = rebuild self ∧
  rebuild (extend ds os self) = rebuild self ∧
  fetch_all request (rebuild self) = fetch_all request self ∧
  fetch_all request (extend ds os self) = fetch_all request self ∧
  ∀ (snap : snapshot) (self' : client),
    fetch_all request self = Ok (snap, self') →
    self' = rebuild self ∧ fetch_all request self' = Ok (snap, self').
Proof.
  assert (fetch_all request (rebuild self) = fetch_all request self) as Hagain
    by (unfold fetch_all; by rewrite rebuild_rebuild).
  split_and!.
  - apply rebuild_rebuild.
  - by rewrite !rebuild_extend.
  - exact Hagain.
  - unfold fetch_all. by rewrite !rebuild_extend.
  - intros snap self' Hrun.
    destruct (fetch_all_returns request self snap self' Hrun) as [_ ->].
    split; [done|]. by rewrite Hagain.
Qed.

(** X17. A fetch cycle changes nothing of the client but its device list and
    OID set: host, password, specification, unknown values and default
    duration stay. The setter and the cycle compose: after any setter call
    the next cycle returns exactly when a cycle without the call returns,
    the snapshot's meta carries the duration the getter returns, and the
    devices and the OIDs fetched are those of a cycle without the call. *)
Theorem setter_then_fetch
    (py : interpreter) (request : string → string → result json)
    (self : client) (m : json) :
  ∃ self1 : client,
    set_eco_default_duration_minutes py self m = Ok self1 ∧
    host (rebuild self1) = host self ∧
    password (rebuild self1) = password self ∧
    _spec (rebuild self1) = _spec self ∧
    _unknown_values (rebuild self1) = _unknown_values self ∧
    eco_default_duration_minutes (rebuild self1) =
      eco_default_duration_minutes self1 ∧
    ((∃ snap : snapshot, fetch_all request self1 = Ok (snap, rebuild self1)) ↔
     (∃ snap : snapshot, fetch_all request self = Ok (snap, rebuild self))) ∧
    ∀ (snap : snapshot) (self' : client),
      fetch_all request self1 = Ok (snap, self') →
      self' = rebuild self1 ∧
      ret_meta snap =
        {[ "eco_default_duration_minutes" :=
             PInt (eco_default_duration_minutes self1) ]} ∧
      ret_devices snap = devices (rebuild self) ∧
      dom (ret_oids snap) = _oids_to_fetch (rebuild self).
Proof.
  assert (∃ self1, set_eco_default_duration_minutes py self m = Ok self1 ∧
                   (self1 = self ∨ ∃ z, self1 = set_eco z self))
    as (self1 & Hset & Hcases).
  { unfold set_eco_default_duration_minutes.
    destruct (int_of_json py m) as [z|e]; cbn; [|by eauto].
    destruct (z <=? 0)%Z; cbn; eauto. }
  destruct (rebuild_config self1) as (Hh & Hp & Hs & Hu & He).
  exists self1.
  assert (devices (rebuild self1) = devices (rebuild self) ∧
          _oids_to_fetch (rebuild self1) = _oids_to_fetch (rebuild self) ∧
          host self1 = host self ∧ password self1 = password self ∧
          _spec self1 = _spec self ∧
          _unknown_values self1 = _unknown_values self)
    as (Hdev & Hoid & Hh' & Hp' & Hs' & Hu').
  { destruct Hcases as [->|[z ->]]; [done|].
    destruct (rebuild_after_setter self z). done. }
  assert (replies_accepted request self1 ↔ replies_accepted request self) as Hacc.
  { unfold replies_accepted, lookup_url. by rewrite Hoid, Hh'. }
  split_and!; try congruence.
  - split; intros [snap Hrun]; apply fetch_all_returns in Hrun as [Hrun _].
    + apply Hacc in Hrun.
      destruct (fetch_all_ok request self Hrun) as (snap' & ? & _). by exists snap'.
    + apply Hacc in Hrun.
      destruct (fetch_all_ok request self1 Hrun) as (snap' & ? & _). by exists snap'.
  - intros snap self' Hrun.
    destruct (fetch_all_snapshot request self1 snap self' Hrun)
      as (-> & _ & Hd & Hm & Ho & _).
    split_and!; [done|done|congruence|].
    rewrite <- Hoid. by apply (dom_oids_snapshot request).
Qed.

(** X18. Everything a call of [_build_hk_climate_device] appends belongs to
    one device: each descriptor carries the circuit's name as [device_name]
    and, as [device_id], the slug of host and "/1/<node>/<fct>", which is
    the [id] of the parent descriptor; a child's own [id] is the slug of
    host and its OID. The module builder does the same with the module's
    name and prefix. *)
Theorem emitted_devices_share_device_id (self : client) :
  (∀ hk : heating_circuit,
     ∃ (parent : device) (children : list device),
       devices (_build_hk_climate_device self hk) =
         (devices self ++ parent :: children)%list ∧
       parent !! "id" = Some (DVal (PStr (hk_dev_id (host self) hk))) ∧
       Forall (λ d : device,
                 d !! "device_id" = Some (DVal (PStr (hk_dev_id (host self) hk))) ∧
                 d !! "device_name" = Some (DVal (PStr (hk_name hk))))
              (parent :: children) ∧
       Forall (λ d : device,
                 ∃ oid : string,
                   d !! "oid" = Some (DVal (PStr oid)) ∧
                   d !! "id" = Some (DVal (PStr (slugify (host self +:+ oid)))))
              children) ∧
  (∀ m : module_block,
     ∃ sensors : list device,
       devices (_build_module_sensors self m) = (devices self ++ sensors)%list ∧
       Forall (λ d : device,
                 d !! "device_id" = Some (DVal (PStr (mod_dev_id (host self) m))) ∧
                 d !! "device_name" = Some (DVal (PStr (mod_name m))) ∧
                 ∃ oid : string,
                   d !! "oid" = Some (DVal (PStr oid)) ∧
                   d !! "id" = Some (DVal (PStr (slugify (host self +:+ oid)))))
              sensors).
Proof.
  split.
  - intros hk.
    exists (climate_device (host self) hk),
           (hk_temperature_children (host self) hk ++
            hk_status_children (host self) hk)%list.
    destruct (climate_device_ids (host self) hk) as (Hid & Hdid & Hdn & _).
    split_and!.
    + by rewrite build_hk_extend.
    + done.
    + apply Forall_cons. split; [done|]. apply Forall_app. split.
      * apply Forall_children. intros nice o.
        by destruct (child_device_ids (host self) "temperature"
                       (hk_dev_id (host self) hk) (hk_name hk) nice o)
          as (_ & ? & ?).
      * apply Forall_children. intros nice o.
        by destruct (status_device_ids (host self)
                       (hk_dev_id (host self) hk) (hk_name hk) nice o)
          as (_ & ? & ?).
    + apply Forall_app. split.
      * apply Forall_children. intros nice o. exists o.
        destruct (child_device_ids (host self) "temperature"
                    (hk_dev_id (host self) hk) (hk_name hk) nice o) as (? & _).
        by destruct (child_device_shape (host self) "temperature"
                       (hk_dev_id (host self) hk) (hk_name hk) nice o)
          as (_ & _ & ?).
      * apply Forall_children. intros nice o. exists o.
        destruct (status_device_ids (host self)
                    (hk_dev_id (host self) hk) (hk_name hk) nice o) as (? & _).
        by destruct (status_device_shape (host self)
                       (hk_dev_id (host self) hk) (hk_name hk) nice o)
          as (_ & _ & ?).
  - intros m. exists (module_devices (host self) m). split.
    + by rewrite build_module_extend.
    + unfold module_devices. apply Forall_fmap, Forall_forall. intros s _. cbn.
      unfold sensor_device.
      destruct (child_device_ids (host self) (sensor_type s)
                  (mod_dev_id (host self) m) (mod_name m)
                  (mod_name m +:+ " " +:+ s_name s) (s_oid s)) as (? & ? & ?).
      destruct (child_device_shape (host self) (sensor_type s)
                  (mod_dev_id (host self) m) (mod_name m)
                  (mod_name m +:+ " " +:+ s_name s) (s_oid s)) as (_ & _ & ?).
      split_and!; [done..|]. by exists (s_oid s).
Qed.

(** X19. In every snapshot that [fetch_all] returns the keys of [units] are
    among the keys of [oids], every OID that [oids] maps to a value other
    than [None] has an entry in [units], and every value of [oids] is a
    scalar. *)
Theorem snapshot_units_follow_oids
    (request : string → string → result json) (self self' : client)
    (snap : snapshot) :
  fetch_all request self = Ok (snap, self') →
  dom (ret_units snap) ⊆ dom (ret_oids snap) ∧
  map_Forall (λ oid v, v = JVal PNone ∨ is_Some (ret_units snap !! oid))
             (ret_oids snap) ∧
  map_Forall (λ _ v, ∃ x : pyval, v = JVal x) (ret_oids snap).
Proof.
  intros Hrun.
  destruct (fetch_all_snapshot request self snap self' Hrun)
    as (-> & _ & _ & _ & Ho & Hu).
  split_and!.
  - intros oid. rewrite !elem_of_dom, Ho, Hu.
    case_decide; [by eexists|by intros [??]].
  - intros oid v. rewrite Ho, Hu. case_decide; [|done]. intros [= <-].
    destruct (looked_up _) as [x|l|d]; cbn [recorded_value recorded_unit];
      [by left..|].
    destruct (d !! "value"); [by right|by left].
  - intros oid v. rewrite Ho. case_decide; [|done]. intros [= <-].
    destruct (looked_up _) as [x|l|d]; cbn [recorded_value]; [by eexists..|].
    destruct (d !! "value") as [[x| |]|]; try by eexists.
    destruct (bool_decide _); by eexists.
Qed.

Lemma snapshot_units_follow_oids_witness :
  ∃ snap : snapshot,
    fetch_all request1 client1 = Ok (snap, rebuild client1) ∧
    dom (ret_units snap) ⊆ dom (ret_oids snap).
Proof.
  destruct (fetch_all_ok request1 client1 (request1_accepted client1))
    as (snap & Hrun & _).
  exists snap. split; [exact Hrun|].
  exact (proj1 (snapshot_units_follow_oids request1 client1 (rebuild client1)
                  snap Hrun)).
Defined.

(** X20. The loop of [fetch_all] runs over a list that holds exactly the
    required OIDs, each once, in ascending byte order. *)
Theorem lookups_sorted_once_each (self : client) :
  let visited := sorted (_oids_to_fetch (rebuild self)) in
  (∀ request,
     fetch_all request self =
     (let self' := rebuild self in
      ret ← for_each visited (fetch_step request self')
              {| ret_devices := devices self'; ret_oids := ∅; ret_units := ∅;
                 ret_meta := {[ "eco_default_duration_minutes" :=
                                  PInt (_eco_default_duration_minutes self') ]} |};
      Ok (ret, self'))) ∧
  StronglySorted str_le visited ∧
  NoDup visited ∧
  (∀ oid : string, oid ∈ visited ↔ oid ∈ _oids_to_fetch (rebuild self)) ∧
  length visited = size (_oids_to_fetch (rebuild self)).
Proof.
  cbv zeta. split_and!.
  - done.
  - apply (StronglySorted_merge_sort String.le).
  - unfold sorted. rewrite merge_sort_Permutation. apply NoDup_elements.
  - intros oid. apply elem_of_sorted.
  - unfold sorted. by rewrite merge_sort_Permutation.
Qed.

(** X21. What a fetch loop returns does not depend on the order in which
    the OIDs are visited: over two lists that are permutations of each other
    the loop returns the same snapshot, or raises on both. (Which exception
    it raises is that of the first OID it cannot read, so that may differ.) *)
Theorem fetch_order_irrelevant
    (request : string → string → result json) (self : client)
    (l1 l2 : list string) (ret : snapshot) :
  l1 ≡ₚ l2 →
  (∀ r : snapshot,
     for_each l1 (fetch_step request self) ret = Ok r ↔
     for_each l2 (fetch_step request self) ret = Ok r) ∧
  ((∃ e : exn, for_each l1 (fetch_step request self) ret = Raise e) ↔
   (∃ e : exn, for_each l2 (fetch_step request self) ret = Raise e)).
Proof.
  intros Hperm.
  assert (∀ la lb r, la ≡ₚ lb →
            for_each la (fetch_step request self) ret = Ok r →
            for_each lb (fetch_step request self) ret = Ok r) as Hone.
  { intros la lb r Hp Hrun.
    pose proof (for_each_fetch_returns request self la ret r Hrun) as Hacc.
    destruct (for_each_fetch request self la ret Hacc)
      as (r1 & Hrun1 & Hd1 & Hm1 & Ho1 & Hu1).
    rewrite Hrun1 in Hrun. injection Hrun as ->.
    assert (Forall (λ oid, loop_raises
                             (looked_up (request "GET" (lookup_url self oid))) =
                           None) lb) as Hacc' by (by rewrite <- Hp).
    destruct (for_each_fetch request self lb ret Hacc')
      as (r2 & -> & Hd2 & Hm2 & Ho2 & Hu2).
    f_equal. destruct r as [d1 o1 u1 m1], r2 as [d2 o2 u2 m2]. cbn in *.
    f_equal; [congruence| | |congruence].
    - apply map_eq. intros oid. rewrite Ho1, Ho2.
      destruct (decide (oid ∈ la)) as [Hin|Hin].
      + by rewrite decide_True by (by rewrite <- Hp).
      + by rewrite decide_False by (by rewrite <- Hp).
    - apply map_eq. intros oid. rewrite Hu1, Hu2.
      destruct (decide (oid ∈ la)) as [Hin|Hin].
      + by rewrite decide_True by (by rewrite <- Hp).
      + by rewrite decide_False by (by rewrite <- Hp). }
  split.
  - intros r. split; by apply Hone.
  - split; intros [e Hraise].
    + destruct (for_each l2 _ ret) as [r|e2] eqn:H2; [|by exists e2].
      apply (Hone l2 l1) in H2; [congruence|done].
    + destruct (for_each l1 _ ret) as [r|e1] eqn:H1; [|by exists e1].
      apply (Hone l1 l2) in H1; [congruence|done].
Qed.

Lemma fetch_order_irrelevant_witness :
  (∃ e : exn,
     for_each ["/1/6/0/0"; "/1/6/0/3"] (fetch_step request_list_value client1)
       {| ret_devices := []; ret_oids := ∅; ret_units := ∅; ret_meta := ∅ |} =
     Raise e) ↔
  (∃ e : exn,
     for_each ["/1/6/0/3"; "/1/6/0/0"] (fetch_step request_list_value client1)
       {| ret_devices := []; ret_oids := ∅; ret_units := ∅; ret_meta := ∅ |} =
     Raise e).
Proof.
  apply (fetch_order_irrelevant request_list_value client1). apply perm_swap.
Defined.

(** X22. The unknown values of a constructed client are exactly what
    [set()] makes of the document's [unknown_values]: the elements of a
    list (with [True] and [False] kept as 1 and 0), the characters of a
    string, the keys of an object; or "-.-" and "" when the document has no
    such entry. In particular, when the entry is a list of strings, a value
    is unknown exactly when it is one of these strings: a listed set
    replaces the defaults, it does not extend them, and a value that is no
    string (null, a number, a boolean) is never unknown. *)
Theorem unknown_values_replace_defaults
    (py : interpreter) (h pw : string) (spec : specification) (c : client)
    (v : pyval) :
  __init__ py h pw (Ok (DocObject spec)) = Ok c →
  (py_key v ∈ _unknown_values c ↔
   match spec_unknown_values spec with
   | None => v = PStr "-.-" ∨ v = PStr ""
   | Some (JList l) => ∃ u : pyval, JVal u ∈ l ∧ py_key u = py_key v
   | Some (JVal (PStr s)) => ∃ ch : string, ch ∈ chars s ∧ v = PStr ch
   | Some (JDict d) => ∃ key : string, is_Some (d !! key) ∧ v = PStr key
   | Some (JVal _) => False
   end) ∧
  py_in_set (JVal v) (_unknown_values c) =
    Ok (bool_decide (py_key v ∈ _unknown_values c)) ∧
  ∀ listed : option (list string),
    spec_unknown_values spec = (λ ss, JList ((λ s, JVal (PStr s)) <$> ss)) <$> listed →
    (py_in_set (JVal v) (_unknown_values c) = Ok true ↔
     ∃ s : string, v = PStr s ∧ s ∈ default ["-.-"; ""] listed).
Proof.
  rewrite init_outcome.
  destruct (py_set (default _ (spec_unknown_values spec))) as [u|] eqn:Hset;
    cbn [mbind result_bind]; [|done].
  destruct (int_of_json py _) as [z|]; cbn [mbind result_bind]; [|done].
  intros [= <-]. cbn [_unknown_values].
  pose proof (py_set_elements _ u (py_key v) Hset) as Hmem.
  assert (∀ s : string, py_key v = PStr s ↔ v = PStr s) as Hstr.
  { intros s. destruct v as [|[]| |]; cbn; split; congruence. }
  assert (py_key v ∈ u ↔
          match spec_unknown_values spec with
          | None => v = PStr "-.-" ∨ v = PStr ""
          | Some (JList l) => ∃ u : pyval, JVal u ∈ l ∧ py_key u = py_key v
          | Some (JVal (PStr s)) => ∃ ch : string, ch ∈ chars s ∧ v = PStr ch
          | Some (JDict d) => ∃ key : string, is_Some (d !! key) ∧ v = PStr key
          | Some (JVal _) => False
          end) as Hchar.
  { rewrite Hmem. destruct (spec_unknown_values spec) as [[[|b|n|s]|l|d]|];
      cbn [default from_option id]; try done.
    - by setoid_rewrite Hstr.
    - by setoid_rewrite Hstr.
    - split.
      + intros (w & [[= ->]|[[= ->]|[]%elem_of_nil]%elem_of_cons]%elem_of_cons & Hw);
          cbn [py_key] in Hw; symmetry in Hw; apply Hstr in Hw; auto.
      + intros [->| ->]; eexists; (split; [|reflexivity]).
        * by left.
        * right. by left. }
  split_and!.
  - exact Hchar.
  - done.
  - intros listed Hlisted. unfold py_in_set. cbn [py_hash mbind result_bind].
    assert (∀ b : bool, Ok (A := bool) b = Ok true ↔ b = true) as Hok
      by (intros b; split; congruence).
    rewrite Hok, bool_decide_eq_true, Hchar, Hlisted.
    destruct listed as [ss|]; cbn [fmap option_fmap option_map default from_option id].
    + split.
      * intros (w & (s & [= ->] & Hs)%list_elem_of_fmap & Hw).
        cbn [py_key] in Hw. symmetry in Hw. apply Hstr in Hw. by exists s.
      * intros (s & -> & Hs). exists (PStr s). split; [|done].
        apply list_elem_of_fmap. by exists s.
    + split.
      * intros [->| ->]; eexists; (split; [reflexivity|]); [by left|].
        right. by left.
      * intros (s & -> & [->|[->|[]%elem_of_nil]%elem_of_cons]%elem_of_cons); auto.
Qed.

Lemma unknown_values_replace_defaults_witness :
  ∃ c : client,
    __init__ py_sample "10.0.0.5" "pw"
      (Ok (DocObject (spec_with (Some (JList [JVal (PStr "n/a")])) None))) = Ok c ∧
    py_in_set (JVal (PStr "n/a")) (_unknown_values c) = Ok true ∧
    ¬ py_in_set (JVal (PStr "-.-")) (_unknown_values c) = Ok true.
Proof.
  eexists. split; [reflexivity|].
  pose proof (λ v, proj2 (proj2 (unknown_values_replace_defaults py_sample
           "10.0.0.5" "pw"
           (spec_with (Some (JList [JVal (PStr "n/a")])) None) _ v eq_refl))
           (Some ["n/a"]) eq_refl) as H.
  split.
  - apply H. exists "n/a". split; [reflexivity|]. apply list_elem_of_here.
  - intros (s & [= <-] & [[=]|[]%elem_of_nil]%elem_of_cons)%H.
Defined.
